(** * bsql: a shallow embedding of the SQL clause builders and of the
      placeholder rewriter

    Sources embedded here:
    - [example/demo.go]: [mini], [replacePlaceholders];
    - the WHERE builder ([wherePart], [WhereBuilder] and its setters);
    - the INSERT builder ([InsertBuilder], [ToSql], [appendValuesToSQL],
      [appendSelectToSQL], [SetMap] and the setters);
    - [sqrl.go]: the [Sqlizer] interface.

    Go strings are byte strings: they are modelled by [string] (a list of
    8-bit [ascii] characters).  A [bytes.Buffer] that is only ever written to
    and finally read with [String()] is modelled by the text written so far. *)

From Stdlib Require Import ZArith String Ascii List Lia DecimalString.
From stdpp Require Import gmap strings list fin_maps sorting.
From Equations Require Import Equations.

Set Warnings "-register-all".
Local Open Scope Z_scope.

(** ** Errors and buffers *)

(** A Go [error] built by [fmt.Errorf] / [errors.New]: identified by its
    message. *)
Inductive error : Type :=
| Errorf (msg : string).

(** [bytes.Buffer], by its contents. *)
Definition Buffer : Type := string.

(** [buf.WriteString(s)] *)
Definition WriteString (buf : Buffer) (s : string) : Buffer := buf +:+ s.

(** ** Go string primitives used by the sources *)

(** [len(s)] *)
Definition len (s : string) : Z := Z.of_nat (String.length s).

(** [strings.Index(s, sep)]: the byte offset of the first occurrence of
    [sep], [None] standing for Go's [-1]. *)
Definition strings_Index (s sep : string) : option nat := String.index 0 sep s.

(** [s[lo:]], [s[:hi]] and [s[lo:hi]] for in-range offsets (Go panics
    otherwise; every use below is in range, see [Index_lt]). *)
Definition slice_from (s : string) (lo : nat) : string :=
  String.substring lo (String.length s - lo) s.
Definition slice_to (s : string) (hi : nat) : string :=
  String.substring 0 hi s.
Definition slice (s : string) (lo hi : nat) : string :=
  String.substring lo (hi - lo) s.

(** [fmt.Fprintf(buf, "%d", i)] and [strconv.FormatUint(n, 10)] *)
Definition FormatInt (i : Z) : string := NilZero.string_of_int (Z.to_int i).
Definition FormatUint (n : N) : string := NilZero.string_of_uint (N.to_uint n).

(** ** The placeholder rewriter ([example/demo.go]) *)

Module Rewriter.

Local Notation "x 'eqn:' p" := (exist _ x p) (only parsing, at level 20).

(** [replace func(buf *bytes.Buffer, i int) error]: a Go closure.  It
    receives the buffer by pointer, so it may change it at will, and it may
    own captured state, modelled by a world [W] threaded through the
    calls. *)
Definition Replacer (W : Type) : Type :=
  W -> Buffer -> Z -> W * Buffer * option error.

Section Loop.
Context {W : Type}.
Variable replace : Replacer W.

(** The [for] loop of [replacePlaceholders]; the loop state is the buffer,
    the counter [i] and the rest of [sql].  The result is the world left
    by the calls of [replace] and the pair [(string, error)] returned.

    [i] is a Go [int]; it is incremented once per marker found in the
    text, so it never exceeds [len(sql)], itself an [int]: the increment
    cannot wrap and [i] is modelled in [Z] (see [count_markers_scan_le]). *)
Equations? replaceLoop (w : W) (buf : Buffer) (i : Z) (sql : string) :
    W * (string * option error) by wf (String.length sql) lt :=
  replaceLoop w buf i sql
    with Equations.Prop.Logic.inspect (strings_Index sql "?") := {
    | None eqn: _ =>
        (* break; buf.WriteString(sql); return buf.String(), nil *)
        (w, (WriteString buf sql, None))
    | Some p eqn: Hp =>
        if (1 <? len (slice_from sql p)) &&
           String.eqb (slice sql p (p + 2)) "??" then
          (* escape ?? => ? *)
          let buf := WriteString buf (slice_to sql p) in
          let buf := WriteString buf "?" in
          if len (slice_from sql p) =? 1 then
            (w, (WriteString buf sql, None))
          else
            replaceLoop w buf i (slice_from sql (p + 2))
        else
          let i := i + 1 in
          let buf := WriteString buf (slice_to sql p) in
          match replace w buf i with
          | (w', _, Some err) => (w', (EmptyString, Some err))
          | (w', buf', None) => replaceLoop w' buf' i (slice_from sql (p + 1))
          end }.
Proof.
  (* both recursive calls are on a proper suffix of [sql] *)
  all: assert (Hsub : forall (s : string) (n m : nat),
         (String.length (String.substring n m s) <= String.length s - n)%nat).
  1, 3: induction s as [|c s IH]; intros [|n] [|m]; simpl; try lia;
    [ specialize (IH 0%nat m) | specialize (IH n 0%nat); simpl in IH
    | specialize (IH n (S m)) ]; lia.
  all: assert (Hlt : forall (s : string) (q : nat),
         String.index 0 "?" s = Some q -> (q < String.length s)%nat).
  1, 3: induction s as [|c s IH]; intros q; cbn [String.index String.prefix];
    [ discriminate | ];
    destruct (Ascii.ascii_dec "?" c) as [_|_];
    [ replace (String.prefix EmptyString s) with true by (destruct s; reflexivity);
      intros [= <-]; simpl; lia
    | destruct (String.index 0 "?" s) as [r|]; [|discriminate];
      intros [= <-]; specialize (IH r eq_refl); simpl; lia ].
  all: apply Hlt in Hp; unfold slice_from;
    match goal with
    | |- (String.length (String.substring ?n ?m ?s) < _)%nat =>
        specialize (Hsub s n m); lia
    end.
Qed.

(** [replacePlaceholders(sql, replace)], run from world [w]. *)
Definition replacePlaceholders (sql : string) (w : W) :
    W * (string * option error) :=
  replaceLoop w EmptyString 0 sql.

(** A ghost call log: [logged] behaves as [replace] and records, for each
    call, the index it was given and the error it returned. *)
Definition logged : Replacer (W * list (Z * option error)) :=
  fun wl buf i =>
    let '(w', buf', err) := replace (fst wl) buf i in
    ((w', snd wl ++ [(i, err)]), buf', err).

End Loop.

(** [mini]: [fmt.Fprintf(buf, "$%d", i); return nil]. *)
Definition mini : Replacer unit :=
  fun w buf i => (w, WriteString buf ("$" +:+ FormatInt i), None).

(** *** The scan of section 4.5, in the spec's words

    "Repeatedly locate the next marker character.  If found and the
    following character is also a marker (an escaped pair), [...] collapse
    the pair to one literal marker [...].  Otherwise (a genuine, unescaped
    marker) [...] increment the running index, call emit". *)
Inductive token : Type :=
| Lit (c : ascii)      (* any other character, copied *)
| EscapedPair          (* two consecutive markers *)
| Marker.              (* an unescaped marker *)

Fixpoint spec_scan (s : string) : list token :=
  match s with
  | EmptyString => []
  | String c rest =>
      if Ascii.eqb c "?" then
        match rest with
        | String c' rest' =>
            if Ascii.eqb c' "?" then EscapedPair :: spec_scan rest'
            else Marker :: spec_scan rest
        | EmptyString => Marker :: spec_scan rest
        end
      else Lit c :: spec_scan rest
  end.

(** The number [k] of unescaped markers of a text. *)
Fixpoint count_markers (ts : list token) : nat :=
  match ts with
  | [] => 0
  | Marker :: ts => S (count_markers ts)
  | _ :: ts => count_markers ts
  end.

Definition markers (s : string) : nat := count_markers (spec_scan s).

Section SpecEmit.
Context {W : Type}.
Variable replace : Replacer W.

(** What section 4.5 prescribes for a scanned text: literal characters are
    copied, an escaped pair yields one literal marker and leaves the index
    alone, an unescaped marker increments the index and calls [emit]. *)
Fixpoint spec_emit (w : W) (buf : Buffer) (i : Z) (ts : list token) :
    W * (string * option error) :=
  match ts with
  | [] => (w, (buf, None))
  | Lit c :: ts => spec_emit w (buf +:+ String c EmptyString) i ts
  | EscapedPair :: ts => spec_emit w (buf +:+ "?") i ts
  | Marker :: ts =>
      match replace w buf (i + 1) with
      | (w', _, Some err) => (w', (EmptyString, Some err))
      | (w', buf', None) => spec_emit w' buf' (i + 1) ts
      end
  end.
End SpecEmit.

(** The indices [1..k]. *)
Definition indices (k : nat) : list Z := Z.of_nat <$> seq 1 k.

End Rewriter.

(** ** Values and renderables ([sqrl.go]) *)

(** Go's [interface{}]: the dynamic values the builders receive.  [expr] is
    the struct whose fields [sql] and [args] the INSERT builder reads.  A
    value implementing [Sqlizer] other than [expr] is identified with what
    its [ToSql()] returns: [ToSql] takes no argument and the sources never
    write to a part they hold. *)
Inductive Value : Type :=
| VNil
| VBool (b : bool)
| VInt (n : Z)
| VString (s : string)
| VExpr (e : expr)
| VSqlizer (sql : string) (args : list Value) (err : option error)
| VMap (m : gmap string Value)
with expr : Type :=
| mkExpr (sql : string) (args : list Value).

Definition expr_sql (e : expr) : string := let 'mkExpr sql _ := e in sql.
Definition expr_args (e : expr) : list Value := let 'mkExpr _ args := e in args.

(** What [ToSql() (string, []interface{}, error)] returns. *)
Definition SqlResult : Type := string * list Value * option error.

(** [type Sqlizer interface { ToSql() (string, []interface{}, error) }] *)
Record Sqlizer : Type := { ToSql : SqlResult }.

(** [%T] of a value, for the values that reach a [default] case. *)
Definition typeName (v : Value) : string :=
  match v with
  | VNil => "<nil>"
  | VBool _ => "bool"
  | VInt _ => "int"
  | VString _ => "string"
  | VExpr _ => "bsql.expr"
  | VSqlizer _ _ _ => "bsql.Sqlizer"
  | VMap _ => "map[string]interface {}"
  end.

(** Modelled from the spec: [Expr(sql, args...)], absent from the sources.
    Section 3: a Literal Fragment holds "raw SQL text plus its own bound
    arguments verbatim". *)
Definition Expr (sql : string) (args : list Value) : expr := mkExpr sql args.

(** Modelled from the spec: [Eq(pred).ToSql()], absent from the sources.
    Section 4.1: for each entry, "<column> = <marker>" joined by " AND ", one
    arg per entry, a null value rendered as "<column> IS NULL" with no bound
    arg, in a total deterministic order, lexical by column name. *)
Definition Eq_ToSql (m : gmap string Value) : SqlResult :=
  let entries := merge_sort (fun a b => String.le (fst a) (fst b)) (map_to_list m) in
  let text (kv : string * Value) :=
    match snd kv with
    | VNil => fst kv +:+ " IS NULL"
    | _ => fst kv +:+ " = ?"
    end in
  let bound (kv : string * Value) :=
    match snd kv with
    | VNil => []
    | v => [v]
    end in
  (String.concat " AND " (text <$> entries), entries ≫= bound, None).

(** Modelled from the spec: [appendToSql(parts, w, sep, args)], absent from
    the sources.  Section 4.2: "Renders each item left to right; appends its
    text to the buffer, separated by separator between successive non-empty
    renders; appends its args to the accumulated args list in the same
    order.  Stops and returns the first error encountered".  [wrote] tells
    whether a non-empty render was written already. *)
Fixpoint appendToSql_from (wrote : bool) (parts : list Sqlizer) (w : Buffer)
    (sep : string) (args : list Value) : Buffer * (list Value * option error) :=
  match parts with
  | [] => (w, (args, None))
  | p :: parts =>
      match ToSql p with
      | (_, _, Some err) => (w, ([], Some err))
      | (partSql, partArgs, None) =>
          if (String.length partSql =? 0)%nat then
            appendToSql_from wrote parts w sep (args ++ partArgs)
          else
            let w := if wrote then WriteString w sep else w in
            appendToSql_from true parts (WriteString w partSql) sep
              (args ++ partArgs)
      end
  end.

(** Modelled from the spec: [appendToSql] itself, the join of section 4.2
    started on a buffer that holds no render of these parts yet. *)
Definition appendToSql : list Sqlizer -> Buffer -> string -> list Value ->
    Buffer * (list Value * option error) :=
  appendToSql_from false.

(** The interface [PlaceholderFormat], known here by the one method the
    builders call: [ReplacePlaceholders(sql string) (string, error)]. *)
Record PlaceholderFormat : Type :=
  { ReplacePlaceholders : string -> string * option error }.

(** Modelled from the spec: a format whose [ReplacePlaceholders] is absent
    from the sources.  Section 4.3, step 7: "Run the assembled text through
    the Placeholder Rewriter (section 4.5) bound to the accumulator's dialect
    configuration", here the rewriter of [example/demo.go] run with the
    dialect's emit function. *)
Definition rewriterFormat (replace : Rewriter.Replacer unit) : PlaceholderFormat :=
  {| ReplacePlaceholders sql := snd (Rewriter.replacePlaceholders replace sql tt) |}.

(** Modelled from the spec: the emit function of the fixed-token dialect of
    section 6, which "always emits a single generic marker". *)
Definition fixedToken : Rewriter.Replacer unit :=
  fun w buf _ => (w, WriteString buf "?", None).

(** Modelled from the spec: the fixed-token format of section 6. *)
Definition Question : PlaceholderFormat := rewriterFormat fixedToken.

(** Modelled from the spec: the indexed format of section 6, which "emits $
    followed by the running index"; its emit function is [mini]. *)
Definition Dollar : PlaceholderFormat := rewriterFormat Rewriter.mini.

(** ** The WHERE builder *)

Module Filtering.

(** [type wherePart part]: the fields [pred] and [args] read by [ToSql]. *)
Record wherePart : Type := { pred : Value; args : list Value }.

(** [func (p wherePart) ToSql()].  The [Sqlizer] case covers [expr], which
    renders as the literal fragment it holds (modelled from the spec,
    section 3: its own [ToSql] is absent from the sources). *)
Definition wherePart_ToSql (p : wherePart) : SqlResult :=
  match pred p with
  | VNil => (EmptyString, [], None)
  | VExpr e => (expr_sql e, expr_args e, None)
  | VSqlizer sql args err => (sql, args, err)
  | VMap m => Eq_ToSql m
  | VString s => (s, args p, None)
  | v =>
      (EmptyString, [],
       Some (Errorf ("expected string-keyed map or string, not " +:+ typeName v)))
  end.

(** [newWherePart(pred, args...)]: the part, seen through [Sqlizer]. *)
Definition newWherePart (pred : Value) (args : list Value) : Sqlizer :=
  {| ToSql := wherePart_ToSql {| pred := pred; args := args |} |}.

(** [type WhereBuilder struct]; [placeholderFormat] is the field promoted
    from the embedded [StatementBuilderType]; [uint64] fields are in [N]. *)
Record WhereBuilder : Type := {
  placeholderFormat : PlaceholderFormat;
  whereParts : list Sqlizer;
  groupBys : list string;
  havingParts : list Sqlizer;
  orderBys : list string;
  limit : N;
  limitValid : bool;
  offset : N;
  offsetValid : bool
}.

(** The zero value of the struct, bound to a format. *)
Definition empty (f : PlaceholderFormat) : WhereBuilder :=
  {| placeholderFormat := f; whereParts := []; groupBys := [];
     havingParts := []; orderBys := []; limit := 0%N; limitValid := false;
     offset := 0%N; offsetValid := false |}.

(** [func (b *WhereBuilder) ToSql()].  On an early [return] the named
    results are returned as they stand: [sqlStr] is still empty. *)
Definition WhereBuilder_ToSql (b : WhereBuilder) : SqlResult :=
  let sql : Buffer := EmptyString in
  let args : list Value := [] in
  match
    if (0 <? length (whereParts b))%nat then
      appendToSql (whereParts b) (WriteString sql " WHERE ") " AND " args
    else (sql, (args, None))
  with
  | (_, (args, Some err)) => (EmptyString, args, Some err)
  | (sql, (args, None)) =>
      let sql :=
        if (0 <? length (groupBys b))%nat then
          WriteString (WriteString sql " GROUP BY ")
            (String.concat ", " (groupBys b))
        else sql in
      match
        if (0 <? length (havingParts b))%nat then
          appendToSql (havingParts b) (WriteString sql " HAVING ") " AND " args
        else (sql, (args, None))
      with
      | (_, (args, Some err)) => (EmptyString, args, Some err)
      | (sql, (args, None)) =>
          let sql :=
            if (0 <? length (orderBys b))%nat then
              WriteString (WriteString sql " ORDER BY ")
                (String.concat ", " (orderBys b))
            else sql in
          let sql :=
            if limitValid b then
              WriteString (WriteString sql " LIMIT ") (FormatUint (limit b))
            else sql in
          let sql :=
            if offsetValid b then
              WriteString (WriteString sql " OFFSET ") (FormatUint (offset b))
            else sql in
          let '(sqlStr, err) := ReplacePlaceholders (placeholderFormat b) sql in
          (sqlStr, args, err)
      end
  end.

(** The setters; each returns the builder it was called on. *)
Definition Where (pred : Value) (args : list Value) (b : WhereBuilder) : WhereBuilder :=
  {| placeholderFormat := placeholderFormat b;
     whereParts := whereParts b ++ [newWherePart pred args];
     groupBys := groupBys b; havingParts := havingParts b;
     orderBys := orderBys b; limit := limit b; limitValid := limitValid b;
     offset := offset b; offsetValid := offsetValid b |}.

Definition GroupBy (names : list string) (b : WhereBuilder) : WhereBuilder :=
  {| placeholderFormat := placeholderFormat b; whereParts := whereParts b;
     groupBys := groupBys b ++ names; havingParts := havingParts b;
     orderBys := orderBys b; limit := limit b; limitValid := limitValid b;
     offset := offset b; offsetValid := offsetValid b |}.

Definition Having (pred : Value) (rest : list Value) (b : WhereBuilder) : WhereBuilder :=
  {| placeholderFormat := placeholderFormat b; whereParts := whereParts b;
     groupBys := groupBys b;
     havingParts := havingParts b ++ [newWherePart pred rest];
     orderBys := orderBys b; limit := limit b; limitValid := limitValid b;
     offset := offset b; offsetValid := offsetValid b |}.

Definition OrderBy (names : list string) (b : WhereBuilder) : WhereBuilder :=
  {| placeholderFormat := placeholderFormat b; whereParts := whereParts b;
     groupBys := groupBys b; havingParts := havingParts b;
     orderBys := orderBys b ++ names; limit := limit b;
     limitValid := limitValid b; offset := offset b;
     offsetValid := offsetValid b |}.

Definition Limit (n : N) (b : WhereBuilder) : WhereBuilder :=
  {| placeholderFormat := placeholderFormat b; whereParts := whereParts b;
     groupBys := groupBys b; havingParts := havingParts b;
     orderBys := orderBys b; limit := n; limitValid := true;
     offset := offset b; offsetValid := offsetValid b |}.

Definition Offset (n : N) (b : WhereBuilder) : WhereBuilder :=
  {| placeholderFormat := placeholderFormat b; whereParts := whereParts b;
     groupBys := groupBys b; havingParts := havingParts b;
     orderBys := orderBys b; limit := limit b; limitValid := limitValid b;
     offset := n; offsetValid := true |}.

(** A chain of setter calls, [b.Where(..).Limit(..)...]. *)
Inductive call : Type :=
| CallWhere (pred : Value) (args : list Value)
| CallGroupBy (names : list string)
| CallHaving (pred : Value) (rest : list Value)
| CallOrderBy (names : list string)
| CallLimit (n : N)
| CallOffset (n : N).

Definition apply (b : WhereBuilder) (c : call) : WhereBuilder :=
  match c with
  | CallWhere pred args => Where pred args b
  | CallGroupBy names => GroupBy names b
  | CallHaving pred rest => Having pred rest b
  | CallOrderBy names => OrderBy names b
  | CallLimit n => Limit n b
  | CallOffset n => Offset n b
  end.

Definition chain (b : WhereBuilder) (cs : list call) : WhereBuilder :=
  fold_left apply cs b.

(** The argument of the last [Limit] (resp. [Offset]) call of a chain. *)
Fixpoint lastLimit (cs : list call) : option N :=
  match cs with
  | [] => None
  | c :: cs =>
      match lastLimit cs, c with
      | Some n, _ => Some n
      | None, CallLimit n => Some n
      | None, _ => None
      end
  end.

Fixpoint lastOffset (cs : list call) : option N :=
  match cs with
  | [] => None
  | c :: cs =>
      match lastOffset cs, c with
      | Some n, _ => Some n
      | None, CallOffset n => Some n
      | None, _ => None
      end
  end.

End Filtering.

(** ** The INSERT builder *)

Module Insertion.

(** [type InsertBuilder struct].  [returning] is a slice whose elements are
    only counted here; [iselect] is a [*SelectBuilder], known by its [ToSql]
    ([None] is the nil pointer). *)
Record InsertBuilder : Type := {
  placeholderFormat : PlaceholderFormat;
  returning : list Sqlizer;
  prefixes : list expr;
  options : list string;
  into : string;
  columns : list string;
  values : list (list Value);
  suffixes : list expr;
  iselect : option Sqlizer
}.

(** [NewInsertBuilder(b)]: every other field has its zero value. *)
Definition NewInsertBuilder (f : PlaceholderFormat) : InsertBuilder :=
  {| placeholderFormat := f; returning := []; prefixes := []; options := [];
     into := EmptyString; columns := []; values := []; suffixes := [];
     iselect := None |}.

(** [p == nil] for a pointer. *)
Definition isNil {A : Type} (p : option A) : bool :=
  match p with
  | None => true
  | Some _ => false
  end.

(** The two validation errors of [ToSql]. *)
Definition MissingTarget : error :=
  Errorf "insert statements must specify a table".
Definition MissingRowsOrQuery : error :=
  Errorf "insert statements must have at least one set of values or select clause".

(** The inner loop of [appendValuesToSQL]: one row; [valueStrings] is
    returned in order, [args] is threaded. *)
Fixpoint renderRow (row : list Value) (args : list Value) :
    (list string * list Value) + error :=
  match row with
  | [] => inl ([], args)
  | val :: row =>
      match
        match val with
        | VExpr typedVal => inl (expr_sql typedVal, args ++ expr_args typedVal)
        | VSqlizer valSql valArgs err =>
            match err with
            | Some err => inr err
            | None => inl (valSql, args ++ valArgs)
            end
        | _ => inl ("?"%string, args ++ [val])
        end
      with
      | inr err => inr err
      | inl (s, args) =>
          match renderRow row args with
          | inr err => inr err
          | inl (valueStrings, args) => inl (s :: valueStrings, args)
          end
      end
  end.

(** The outer loop: [valuesStrings[r] = fmt.Sprintf("(%s)", ...)]. *)
Fixpoint renderRows (rows : list (list Value)) (args : list Value) :
    (list string * list Value) + error :=
  match rows with
  | [] => inl ([], args)
  | row :: rows =>
      match renderRow row args with
      | inr err => inr err
      | inl (valueStrings, args) =>
          match renderRows rows args with
          | inr err => inr err
          | inl (valuesStrings, args) =>
              inl (("(" +:+ String.concat "," valueStrings +:+ ")") :: valuesStrings,
                   args)
          end
      end
  end.

(** [func (b *InsertBuilder) appendValuesToSQL(w, args)] *)
Definition appendValuesToSQL (b : InsertBuilder) (w : Buffer) (args : list Value) :
    Buffer * (list Value * option error) :=
  if (length (values b) =? 0)%nat then
    (w, (args, Some (Errorf "values for insert statements are not set")))
  else
    let w := WriteString w "VALUES " in
    match renderRows (values b) args with
    | inr err => (w, ([], Some err))
    | inl (valuesStrings, args) =>
        (WriteString w (String.concat "," valuesStrings), (args, None))
    end.

(** [func (b *InsertBuilder) appendSelectToSQL(w, args)] *)
Definition appendSelectToSQL (b : InsertBuilder) (w : Buffer) (args : list Value) :
    Buffer * (list Value * option error) :=
  match iselect b with
  | None =>
      (w, (args, Some (Errorf "select clause for insert statements are not set")))
  | Some sb =>
      match ToSql sb with
      | (_, _, Some err) => (w, (args, Some err))
      | (selectClause, sArgs, None) =>
          (WriteString w selectClause, (args ++ sArgs, None))
      end
  end.

Section Render.
(** The methods [exprs.AppendToSql(w, sep, args)] and
    [returning.AppendToSql(w, args)] are not among the sources: [ToSql] is
    parameterised by them, typed from their call sites (the buffer is passed
    by pointer, so it is returned). *)
Variable exprs_AppendToSql :
  list expr -> Buffer -> string -> list Value -> Buffer * (list Value * option error).
Variable returning_AppendToSql :
  list Sqlizer -> Buffer -> list Value -> Buffer * (list Value * option error).

(** [func (b *InsertBuilder) ToSql()].  On an early [return] the named
    result [sqlStr] is still empty. *)
Definition InsertBuilder_ToSql (b : InsertBuilder) : SqlResult :=
  if (String.length (into b) =? 0)%nat then
    (EmptyString, [], Some MissingTarget)
  else if (length (values b) =? 0)%nat && isNil (iselect b) then
    (EmptyString, [], Some MissingRowsOrQuery)
  else
    let sql : Buffer := EmptyString in
    let args : list Value := [] in
    let '(sql, args) :=
      if (0 <? length (prefixes b))%nat then
        let '(sql, (args, _)) := exprs_AppendToSql (prefixes b) sql " " args in
        (WriteString sql " ", args)
      else (sql, args) in
    let sql := WriteString sql "INSERT " in
    let sql :=
      if (0 <? length (options b))%nat then
        WriteString (WriteString sql (String.concat " " (options b))) " "
      else sql in
    let sql := WriteString sql "INTO " in
    let sql := WriteString sql (into b) in
    let sql := WriteString sql " " in
    let sql :=
      if (0 <? length (columns b))%nat then
        WriteString
          (WriteString (WriteString sql "(") (String.concat "," (columns b)))
          ") "
      else sql in
    match
      if negb (isNil (iselect b)) then appendSelectToSQL b sql args
      else appendValuesToSQL b sql args
    with
    | (_, (args, Some err)) => (EmptyString, args, Some err)
    | (sql, (args, None)) =>
        match
          if (0 <? length (returning b))%nat then
            returning_AppendToSql (returning b) sql args
          else (sql, (args, None))
        with
        | (_, (args, Some err)) => (EmptyString, args, Some err)
        | (sql, (args, None)) =>
            let '(sql, args) :=
              if (0 <? length (suffixes b))%nat then
                let sql := WriteString sql " " in
                let '(sql, (args, _)) :=
                  exprs_AppendToSql (suffixes b) sql " " args in
                (sql, args)
              else (sql, args) in
            let '(sqlStr, err) := ReplacePlaceholders (placeholderFormat b) sql in
            (sqlStr, args, err)
        end
    end.
End Render.

(** Modelled from the spec: [exprs.AppendToSql], absent from the sources.
    Section 4.4: "prefixes (space-joined, args flattened first)"; a literal
    fragment renders its text and its arguments verbatim and cannot fail. *)
Fixpoint spec_exprs_AppendToSql (es : list expr) (w : Buffer) (sep : string)
    (args : list Value) : Buffer * (list Value * option error) :=
  match es with
  | [] => (w, (args, None))
  | [e] => (WriteString w (expr_sql e), (args ++ expr_args e, None))
  | e :: es =>
      spec_exprs_AppendToSql es (WriteString (WriteString w (expr_sql e)) sep)
        sep (args ++ expr_args e)
  end.

(** The setters of the sources ([Returning] and [ReturningSelect] only
    forward to methods of [returning] that are not among the sources). *)
Definition PlaceholderFormat_set (f : PlaceholderFormat) (b : InsertBuilder) : InsertBuilder :=
  {| placeholderFormat := f; returning := returning b; prefixes := prefixes b;
     options := options b; into := into b; columns := columns b;
     values := values b; suffixes := suffixes b; iselect := iselect b |}.

Definition Prefix (sql : string) (args : list Value) (b : InsertBuilder) : InsertBuilder :=
  {| placeholderFormat := placeholderFormat b; returning := returning b;
     prefixes := prefixes b ++ [Expr sql args];
     options := options b; into := into b; columns := columns b;
     values := values b; suffixes := suffixes b; iselect := iselect b |}.

Definition Options (opts : list string) (b : InsertBuilder) : InsertBuilder :=
  {| placeholderFormat := placeholderFormat b; returning := returning b;
     prefixes := prefixes b; options := options b ++ opts; into := into b;
     columns := columns b; values := values b; suffixes := suffixes b;
     iselect := iselect b |}.

Definition Into (table : string) (b : InsertBuilder) : InsertBuilder :=
  {| placeholderFormat := placeholderFormat b; returning := returning b;
     prefixes := prefixes b; options := options b; into := table;
     columns := columns b; values := values b; suffixes := suffixes b;
     iselect := iselect b |}.

Definition Columns (cols : list string) (b : InsertBuilder) : InsertBuilder :=
  {| placeholderFormat := placeholderFormat b; returning := returning b;
     prefixes := prefixes b; options := options b; into := into b;
     columns := columns b ++ cols; values := values b;
     suffixes := suffixes b; iselect := iselect b |}.

Definition Values (vals : list Value) (b : InsertBuilder) : InsertBuilder :=
  {| placeholderFormat := placeholderFormat b; returning := returning b;
     prefixes := prefixes b; options := options b; into := into b;
     columns := columns b; values := values b ++ [vals];
     suffixes := suffixes b; iselect := iselect b |}.

Definition Suffix (sql : string) (args : list Value) (b : InsertBuilder) : InsertBuilder :=
  {| placeholderFormat := placeholderFormat b; returning := returning b;
     prefixes := prefixes b; options := options b; into := into b;
     columns := columns b; values := values b;
     suffixes := suffixes b ++ [Expr sql args]; iselect := iselect b |}.

Definition Select (sb : option Sqlizer) (b : InsertBuilder) : InsertBuilder :=
  {| placeholderFormat := placeholderFormat b; returning := returning b;
     prefixes := prefixes b; options := options b; into := into b;
     columns := columns b; values := values b; suffixes := suffixes b;
     iselect := sb |}.

(** [for col, val := range clauses]: Go visits every entry of the map once,
    in an order that the language leaves unspecified and that may change
    from one loop to the next.  [visited] is the sequence of entries one
    execution of the loop goes through. *)
Definition rangeOver (clauses : gmap string Value) (visited : list (string * Value)) : Prop :=
  visited ≡ₚ map_to_list clauses.

(** The body of [SetMap] for one such execution. *)
Definition SetMap_visiting (visited : list (string * Value)) (b : InsertBuilder) : InsertBuilder :=
  let '(cols, vals) :=
    fold_left (fun cv kv => (fst cv ++ [fst kv], snd cv ++ [snd kv]))
      visited ([], []) in
  {| placeholderFormat := placeholderFormat b; returning := returning b;
     prefixes := prefixes b; options := options b; into := into b;
     columns := cols; values := [vals]; suffixes := suffixes b;
     iselect := iselect b |}.

(** [func (b *InsertBuilder) SetMap(clauses)]: the builders it may leave. *)
Inductive SetMap (clauses : gmap string Value) (b : InsertBuilder) : InsertBuilder -> Prop :=
| SetMap_run (visited : list (string * Value)) :
    rangeOver clauses visited ->
    SetMap clauses b (SetMap_visiting visited b).

End Insertion.

(** ** Method calls on a builder

    The builders are used through pointers: a method may assign the fields
    of the struct its receiver points to, and [ToSql] writes to a
    [bytes.Buffer] that it allocates and hands, by pointer, to the helpers
    it calls.  This section embeds the bodies of the methods statement by
    statement, as computations on these two objects. *)

Module Method.

(** What a method call can reach: the struct behind its receiver and the
    buffer of the call. *)
Record Heap (B : Type) : Type := { recv : B; buf : Buffer }.
Arguments recv {B} _.
Arguments buf {B} _.

(** A computation inside a method whose results have type [R]: it ends with
    a value ([inl]) or by executing a [return] ([inr]). *)
Definition M (B R A : Type) : Type := Heap B -> (A + R) * Heap B.

Definition ret {B R A : Type} (a : A) : M B R A := fun h => (inl a, h).

Definition bind {B R A C : Type} (m : M B R A) (k : A -> M B R C) : M B R C :=
  fun h =>
    match m h with
    | (inl a, h') => k a h'
    | (inr r, h') => (inr r, h')
    end.

(** [return r] *)
Definition return_ {B R A : Type} (r : R) : M B R A := fun h => (inr r, h).

(** [b.f], a read of a field of the receiver. *)
Definition field {B R A : Type} (f : B -> A) : M B R A := fun h => (inl (f (recv h)), h).

(** An assignment to fields of the receiver, [b.f = v]: the struct becomes
    [g] of what it was. *)
Definition assign {B R : Type} (g : B -> B) : M B R unit :=
  fun h => (inl tt, {| recv := g (recv h); buf := buf h |}).

(** [sql := &bytes.Buffer{}] *)
Definition newBuffer {B R : Type} : M B R unit :=
  fun h => (inl tt, {| recv := recv h; buf := EmptyString |}).

(** [sql.WriteString(s)], [io.WriteString(w, s)] *)
Definition write {B R : Type} (s : string) : M B R unit :=
  fun h => (inl tt, {| recv := recv h; buf := WriteString (buf h) s |}).

(** [sql.String()] *)
Definition contents {B R : Type} : M B R string := fun h => (inl (buf h), h).

(** A call of a helper that is given the buffer by pointer. *)
Definition onBuffer {B R A : Type} (f : Buffer -> Buffer * A) : M B R A :=
  fun h => let '(w, a) := f (buf h) in (inl a, {| recv := recv h; buf := w |}).

(** A call of another method of the same receiver, on the same buffer. *)
Definition invoke {B R R' : Type} (m : M B R' R') : M B R R' :=
  fun h =>
    match m h with
    | (inl r, h') | (inr r, h') => (inl r, h')
    end.

(** A call [b.m(...)] from outside: the struct as the call leaves it, and
    the results. *)
Definition call {B R : Type} (m : M B R R) (b : B) : B * R :=
  match m {| recv := b; buf := EmptyString |} with
  | (inl r, h) | (inr r, h) => (recv h, r)
  end.

Notation "x <-- m ;; k" := (bind m (fun x => k))
  (at level 100, m at next level, right associativity).
Notation "m ;;; k" := (bind m (fun _ => k))
  (at level 100, right associativity).

(** [func (b *WhereBuilder) ToSql()], statement by statement. *)
Definition WhereBuilder_ToSql :
    M Filtering.WhereBuilder SqlResult SqlResult :=
  newBuffer ;;;
  whereParts <-- field Filtering.whereParts ;;
  args <-- (if (0 <? length whereParts)%nat then
              write " WHERE " ;;;
              r <-- onBuffer (fun w => appendToSql whereParts w " AND " []) ;;
              match r with
              | (args, Some err) => return_ (EmptyString, args, Some err)
              | (args, None) => ret args
              end
            else ret []) ;;
  groupBys <-- field Filtering.groupBys ;;
  (if (0 <? length groupBys)%nat then
     write " GROUP BY " ;;; write (String.concat ", " groupBys)
   else ret tt) ;;;
  havingParts <-- field Filtering.havingParts ;;
  args <-- (if (0 <? length havingParts)%nat then
              write " HAVING " ;;;
              r <-- onBuffer (fun w => appendToSql havingParts w " AND " args) ;;
              match r with
              | (args, Some err) => return_ (EmptyString, args, Some err)
              | (args, None) => ret args
              end
            else ret args) ;;
  orderBys <-- field Filtering.orderBys ;;
  (if (0 <? length orderBys)%nat then
     write " ORDER BY " ;;; write (String.concat ", " orderBys)
   else ret tt) ;;;
  limitValid <-- field Filtering.limitValid ;;
  (if limitValid then
     write " LIMIT " ;;;
     limit <-- field Filtering.limit ;;
     write (FormatUint limit)
   else ret tt) ;;;
  offsetValid <-- field Filtering.offsetValid ;;
  (if offsetValid then
     write " OFFSET " ;;;
     offset <-- field Filtering.offset ;;
     write (FormatUint offset)
   else ret tt) ;;;
  format <-- field Filtering.placeholderFormat ;;
  text <-- contents ;;
  let '(sqlStr, err) := ReplacePlaceholders format text in
  return_ (sqlStr, args, err).

(** The setters of the WHERE builder: each assigns its slot and returns the
    receiver. *)
Definition setter (c : Filtering.call) : M Filtering.WhereBuilder unit unit :=
  match c with
  | Filtering.CallWhere pred args => assign (Filtering.Where pred args)
  | Filtering.CallGroupBy names => assign (Filtering.GroupBy names)
  | Filtering.CallHaving pred rest => assign (Filtering.Having pred rest)
  | Filtering.CallOrderBy names => assign (Filtering.OrderBy names)
  | Filtering.CallLimit n => assign (Filtering.Limit n)
  | Filtering.CallOffset n => assign (Filtering.Offset n)
  end.

(** What a program does with one WHERE builder: setter calls and renders,
    in any order. *)
Inductive use : Type :=
| Mutate (c : Filtering.call)
| Render.

(** The builder a sequence of uses leaves, and what its renders returned. *)
Fixpoint session (b : Filtering.WhereBuilder) (us : list use) :
    Filtering.WhereBuilder * list SqlResult :=
  match us with
  | [] => (b, [])
  | Mutate c :: us => session (fst (call (setter c) b)) us
  | Render :: us =>
      let '(b', r) := call WhereBuilder_ToSql b in
      let '(b'', rs) := session b' us in
      (b'', r :: rs)
  end.

(** [func (b *InsertBuilder) appendValuesToSQL(w, args)]: [w] is the buffer
    of the caller; the two loops touch neither the receiver nor the buffer
    and are those of [Insertion.renderRows]. *)
Definition appendValuesToSQL (args : list Value) :
    M Insertion.InsertBuilder (list Value * option error) (list Value * option error) :=
  values <-- field Insertion.values ;;
  if (length values =? 0)%nat then
    return_ (args, Some (Errorf "values for insert statements are not set"))
  else
    write "VALUES " ;;;
    values <-- field Insertion.values ;;
    match Insertion.renderRows values args with
    | inr err => return_ ([], Some err)
    | inl (valuesStrings, args) =>
        write (String.concat "," valuesStrings) ;;;
        return_ (args, None)
    end.

(** [func (b *InsertBuilder) appendSelectToSQL(w, args)] *)
Definition appendSelectToSQL (args : list Value) :
    M Insertion.InsertBuilder (list Value * option error) (list Value * option error) :=
  iselect <-- field Insertion.iselect ;;
  match iselect with
  | None =>
      return_ (args, Some (Errorf "select clause for insert statements are not set"))
  | Some sb =>
      match ToSql sb with
      | (_, _, Some err) => return_ (args, Some err)
      | (selectClause, sArgs, None) =>
          write selectClause ;;;
          return_ (args ++ sArgs, None)
      end
  end.

Section InsertRender.
Variable exprs_AppendToSql :
  list expr -> Buffer -> string -> list Value -> Buffer * (list Value * option error).
Variable returning_AppendToSql :
  list Sqlizer -> Buffer -> list Value -> Buffer * (list Value * option error).

(** [func (b *InsertBuilder) ToSql()], statement by statement. *)
Definition InsertBuilder_ToSql :
    M Insertion.InsertBuilder SqlResult SqlResult :=
  into <-- field Insertion.into ;;
  if (String.length into =? 0)%nat then
    return_ (EmptyString, [], Some Insertion.MissingTarget)
  else
  values <-- field Insertion.values ;;
  iselect <-- field Insertion.iselect ;;
  if (length values =? 0)%nat && Insertion.isNil iselect then
    return_ (EmptyString, [], Some Insertion.MissingRowsOrQuery)
  else
  newBuffer ;;;
  prefixes <-- field Insertion.prefixes ;;
  args <-- (if (0 <? length prefixes)%nat then
              r <-- onBuffer (fun w => exprs_AppendToSql prefixes w " " []) ;;
              let '(args, _) := r in
              write " " ;;;
              ret args
            else ret []) ;;
  write "INSERT " ;;;
  options <-- field Insertion.options ;;
  (if (0 <? length options)%nat then
     write (String.concat " " options) ;;; write " "
   else ret tt) ;;;
  write "INTO " ;;;
  into <-- field Insertion.into ;;
  write into ;;;
  write " " ;;;
  columns <-- field Insertion.columns ;;
  (if (0 <? length columns)%nat then
     write "(" ;;; write (String.concat "," columns) ;;; write ") "
   else ret tt) ;;;
  iselect <-- field Insertion.iselect ;;
  r <-- (if negb (Insertion.isNil iselect) then invoke (appendSelectToSQL args)
         else invoke (appendValuesToSQL args)) ;;
  match r with
  | (args, Some err) => return_ (EmptyString, args, Some err)
  | (args, None) =>
      returning <-- field Insertion.returning ;;
      r <-- (if (0 <? length returning)%nat then
               onBuffer (fun w => returning_AppendToSql returning w args)
             else ret (args, None)) ;;
      match r with
      | (args, Some err) => return_ (EmptyString, args, Some err)
      | (args, None) =>
          suffixes <-- field Insertion.suffixes ;;
          args <-- (if (0 <? length suffixes)%nat then
                      write " " ;;;
                      r <-- onBuffer (fun w => exprs_AppendToSql suffixes w " " args) ;;
                      let '(args, _) := r in
                      ret args
                    else ret args) ;;
          format <-- field Insertion.placeholderFormat ;;
          text <-- contents ;;
          let '(sqlStr, err) := ReplacePlaceholders format text in
          return_ (sqlStr, args, err)
      end
  end.
End InsertRender.

End Method.

(** The setter calls of a sequence of uses, and what its renders must
    return if a render leaves no trace: the result of [ToSql] on the builder
    as the setter calls before it made it. *)
Fixpoint mutations (us : list Method.use) : list Filtering.call :=
  match us with
  | [] => []
  | Method.Mutate c :: us => c :: mutations us
  | Method.Render :: us => mutations us
  end.

Fixpoint renders (b : Filtering.WhereBuilder) (us : list Method.use) : list SqlResult :=
  match us with
  | [] => []
  | Method.Mutate c :: us => renders (Filtering.apply b c) us
  | Method.Render :: us => Filtering.WhereBuilder_ToSql b :: renders b us
  end.

(** ** The database stub ([sqrl_test.go]) *)

Module Stub.

(** Go's [int], 64 bits wide: [x + 1] wraps around. *)
Definition wrap_int (x : Z) : Z := (x + 2 ^ 63) mod 2 ^ 64 - 2 ^ 63.

Section DBStub.
(** [sql.Result] is an interface of [database/sql]; the stub only stores
    and returns the value it was built with. *)
Variable Result : Type.

(** [type DBStub struct] *)
Record DBStub : Type := {
  res : Result;
  err : option error;
  LastPrepareSql : string;
  PrepareCount : Z;
  LastExecSql : string;
  LastExecArgs : list Value;
  LastQuerySql : string;
  LastQueryArgs : list Value;
  LastQueryRowSql : string;
  LastQueryRowArgs : list Value
}.

(** [func (s *DBStub) Prepare(query)], also the body of [PrepareContext]:
    the stub after the call; both return [nil, nil]. *)
Definition Prepare (query : string) (s : DBStub) : DBStub :=
  {| res := res s; err := err s;
     LastPrepareSql := query; PrepareCount := wrap_int (PrepareCount s + 1);
     LastExecSql := LastExecSql s; LastExecArgs := LastExecArgs s;
     LastQuerySql := LastQuerySql s; LastQueryArgs := LastQueryArgs s;
     LastQueryRowSql := LastQueryRowSql s; LastQueryRowArgs := LastQueryRowArgs s |}.

(** [func (s *DBStub) Exec(query, args...)], also the body of
    [ExecContext]: the stub after the call and the pair [(s.res, s.err)]
    returned. *)
Definition Exec (query : string) (args : list Value) (s : DBStub) :
    DBStub * (Result * option error) :=
  ({| res := res s; err := err s;
      LastPrepareSql := LastPrepareSql s; PrepareCount := PrepareCount s;
      LastExecSql := query; LastExecArgs := args;
      LastQuerySql := LastQuerySql s; LastQueryArgs := LastQueryArgs s;
      LastQueryRowSql := LastQueryRowSql s; LastQueryRowArgs := LastQueryRowArgs s |},
   (res s, err s)).

(** [func (s *DBStub) Query(query, args...)], also the body of
    [QueryContext]; both return [nil, nil]. *)
Definition Query (query : string) (args : list Value) (s : DBStub) : DBStub :=
  {| res := res s; err := err s;
     LastPrepareSql := LastPrepareSql s; PrepareCount := PrepareCount s;
     LastExecSql := LastExecSql s; LastExecArgs := LastExecArgs s;
     LastQuerySql := query; LastQueryArgs := args;
     LastQueryRowSql := LastQueryRowSql s; LastQueryRowArgs := LastQueryRowArgs s |}.

(** The calls a test can make on a stub; the [Context] variants ignore
    their context and run the same body. *)
Inductive call : Type :=
| CallPrepare (query : string)
| CallPrepareContext (query : string)
| CallExec (query : string) (args : list Value)
| CallExecContext (query : string) (args : list Value)
| CallQuery (query : string) (args : list Value)
| CallQueryContext (query : string) (args : list Value).

Definition step (s : DBStub) (c : call) : DBStub :=
  match c with
  | CallPrepare q | CallPrepareContext q => Prepare q s
  | CallExec q a | CallExecContext q a => fst (Exec q a s)
  | CallQuery q a | CallQueryContext q a => Query q a s
  end.

Definition run (s : DBStub) (cs : list call) : DBStub := fold_left step cs s.

(** The [Prepare] calls of a history, and the last query of each kind. *)
Fixpoint prepares (cs : list call) : nat :=
  match cs with
  | [] => 0
  | (CallPrepare _ | CallPrepareContext _) :: cs => S (prepares cs)
  | _ :: cs => prepares cs
  end.

Fixpoint lastPrepared (cs : list call) : option string :=
  match cs with
  | [] => None
  | c :: cs =>
      match lastPrepared cs, c with
      | Some q, _ => Some q
      | None, (CallPrepare q | CallPrepareContext q) => Some q
      | None, _ => None
      end
  end.

Fixpoint lastExec (cs : list call) : option (string * list Value) :=
  match cs with
  | [] => None
  | c :: cs =>
      match lastExec cs, c with
      | Some qa, _ => Some qa
      | None, (CallExec q a | CallExecContext q a) => Some (q, a)
      | None, _ => None
      end
  end.

Fixpoint lastQuery (cs : list call) : option (string * list Value) :=
  match cs with
  | [] => None
  | c :: cs =>
      match lastQuery cs, c with
      | Some qa, _ => Some qa
      | None, (CallQuery q a | CallQueryContext q a) => Some (q, a)
      | None, _ => None
      end
  end.

End DBStub.

Arguments res {Result} _.
Arguments err {Result} _.
Arguments LastPrepareSql {Result} _.
Arguments PrepareCount {Result} _.
Arguments LastExecSql {Result} _.
Arguments LastExecArgs {Result} _.
Arguments LastQuerySql {Result} _.
Arguments LastQueryArgs {Result} _.
Arguments LastQueryRowSql {Result} _.
Arguments LastQueryRowArgs {Result} _.
Arguments Prepare {Result} _ _.
Arguments Exec {Result} _ _ _.
Arguments Query {Result} _ _ _.
Arguments step {Result} _ _.
Arguments run {Result} _ _.

End Stub.

(** ** The demo program ([example/demo.go]) *)

(** The double quote character, and the statement [main] rewrites. *)
Definition dquote : string := String (Ascii.ascii_of_nat 34) EmptyString.

Definition main_sql : string :=
  "SELECT uuid, " +:+ dquote +:+ "data" +:+ dquote +:+
  " #> '{tags}' AS tags FROM nodes WHERE  " +:+ dquote +:+ "data" +:+ dquote +:+
  " -> 'tags' ??| array['?'] AND enabled = ?".

(** [func main()]: what [fmt.Println(s)] prints, the error being dropped. *)
Definition main_printed : string :=
  fst (snd (Rewriter.replacePlaceholders Rewriter.mini main_sql tt)) +:+
  String (Ascii.ascii_of_nat 10) EmptyString.

(** ** Notions used by the statements *)

(** A text without marker. *)
Definition plain (s : string) : Prop := strings_Index s "?" = None.

(** The marker character between [s] and [t] is an unescaped marker of the
    text [s?t]: the scan of section 4.5 takes it neither as the second
    character of a pair begun in [s] nor as the first of a pair completed in
    [t], so the text scans as [s], that marker, [t]. *)
Definition unescapedMarkerAt (s t : string) : Prop :=
  Rewriter.spec_scan (s +:+ String "?" t) =
  Rewriter.spec_scan s ++ Rewriter.Marker :: Rewriter.spec_scan t.

(** The entries logged by [n] successful calls made after index [i]. *)
Definition okCalls (i : Z) (n : nat) : list (Z * option error) :=
  (fun j => (i + Z.of_nat j, None)) <$> seq 1 n.

(** A dialect that appends the token [tok i] and never fails. *)
Definition appending (tok : Z -> string) : Rewriter.Replacer unit :=
  fun w buf i => (w, WriteString buf (tok i), None).

(** The text section 4.5 prescribes for a scanned text under such a
    dialect, [i] markers having been numbered already. *)
Fixpoint spec_render (tok : Z -> string) (i : Z) (ts : list Rewriter.token) : string :=
  match ts with
  | [] => EmptyString
  | Rewriter.Lit c :: ts => String c (spec_render tok i ts)
  | Rewriter.EscapedPair :: ts => String "?" (spec_render tok i ts)
  | Rewriter.Marker :: ts => tok (i + 1) +:+ spec_render tok (i + 1) ts
  end.

(** *** Fragment sequences *)

Definition partText (p : Sqlizer) : string := fst (fst (ToSql p)).
Definition partArgs (p : Sqlizer) : list Value := snd (fst (ToSql p)).
Definition partErr (p : Sqlizer) : option error := snd (ToSql p).

(** The error of the first part that fails to render, if any. *)
Fixpoint firstError (parts : list Sqlizer) : option error :=
  match parts with
  | [] => None
  | p :: parts =>
      match partErr p with
      | Some err => Some err
      | None => firstError parts
      end
  end.

(** The non-empty texts of the parts, joined; their arguments, in order. *)
Definition nonEmptyTexts (parts : list Sqlizer) : list string :=
  filter (fun s : string => s <> EmptyString) (partText <$> parts).
Definition spec_join (sep : string) (parts : list Sqlizer) : string :=
  String.concat sep (nonEmptyTexts parts).
Definition allArgs (parts : list Sqlizer) : list Value := parts ≫= partArgs.

(** What a join adds to a buffer that holds a non-empty render already
    ([wrote = true]) or not. *)
Definition joinFrom (wrote : bool) (sep : string) (texts : list string) : string :=
  match texts with
  | [] => EmptyString
  | _ :: _ => (if wrote then sep else EmptyString) +:+ String.concat sep texts
  end.

(** A keyword and the join of a part list, written only when the list is
    not empty. *)
Definition joinClause (kw sep : string) (parts : list Sqlizer) : string :=
  match parts with
  | [] => EmptyString
  | _ => kw +:+ spec_join sep parts
  end.

(** *** The clauses of the WHERE builder, in the spec's words (section 4.3) *)

Definition whereClause (b : Filtering.WhereBuilder) : string :=
  match Filtering.whereParts b with
  | [] => EmptyString
  | parts => " WHERE " +:+ spec_join " AND " parts
  end.

Definition groupByClause (b : Filtering.WhereBuilder) : string :=
  match Filtering.groupBys b with
  | [] => EmptyString
  | names => " GROUP BY " +:+ String.concat ", " names
  end.

Definition havingClause (b : Filtering.WhereBuilder) : string :=
  match Filtering.havingParts b with
  | [] => EmptyString
  | parts => " HAVING " +:+ spec_join " AND " parts
  end.

Definition orderByClause (b : Filtering.WhereBuilder) : string :=
  match Filtering.orderBys b with
  | [] => EmptyString
  | names => " ORDER BY " +:+ String.concat ", " names
  end.

Definition limitText (set : option N) : string :=
  match set with
  | Some n => " LIMIT " +:+ FormatUint n
  | None => EmptyString
  end.

Definition offsetText (set : option N) : string :=
  match set with
  | Some n => " OFFSET " +:+ FormatUint n
  | None => EmptyString
  end.

Definition limitClause (b : Filtering.WhereBuilder) : string :=
  limitText (if Filtering.limitValid b then Some (Filtering.limit b) else None).

Definition offsetClause (b : Filtering.WhereBuilder) : string :=
  offsetText (if Filtering.offsetValid b then Some (Filtering.offset b) else None).

Definition spec_text (b : Filtering.WhereBuilder) : string :=
  whereClause b +:+ groupByClause b +:+ havingClause b +:+ orderByClause b +:+
  limitClause b +:+ offsetClause b.

(** *** The stages of the INSERT builder *)

(** The error of the first row value that fails to render, if any. *)
Fixpoint rowError (row : list Value) : option error :=
  match row with
  | [] => None
  | VSqlizer _ _ (Some err) :: _ => Some err
  | _ :: row => rowError row
  end.

Fixpoint rowsError (rows : list (list Value)) : option error :=
  match rows with
  | [] => None
  | row :: rows =>
      match rowError row with
      | Some err => Some err
      | None => rowsError rows
      end
  end.

(** The error of the rendered source: the subquery when there is one, the
    rows otherwise. *)
Definition bodyError (b : Insertion.InsertBuilder) : option error :=
  match Insertion.iselect b with
  | Some sb => partErr sb
  | None => rowsError (Insertion.values b)
  end.

Section Stages.
Variable exprs_AppendToSql :
  list expr -> Buffer -> string -> list Value -> Buffer * (list Value * option error).
Variable returning_AppendToSql :
  list Sqlizer -> Buffer -> list Value -> Buffer * (list Value * option error).

(** The buffer and the arguments before the source is rendered. *)
Definition beforeBody (b : Insertion.InsertBuilder) : Buffer * list Value :=
  let '(sql, args) :=
    if (0 <? length (Insertion.prefixes b))%nat then
      let '(sql, (args, _)) :=
        exprs_AppendToSql (Insertion.prefixes b) EmptyString " " [] in
      (WriteString sql " ", args)
    else (EmptyString, []) in
  let sql := WriteString sql "INSERT " in
  let sql :=
    if (0 <? length (Insertion.options b))%nat then
      WriteString (WriteString sql (String.concat " " (Insertion.options b))) " "
    else sql in
  let sql := WriteString (WriteString (WriteString sql "INTO ") (Insertion.into b)) " " in
  let sql :=
    if (0 <? length (Insertion.columns b))%nat then
      WriteString
        (WriteString (WriteString sql "(") (String.concat "," (Insertion.columns b)))
        ") "
    else sql in
  (sql, args).

Definition body (b : Insertion.InsertBuilder) (sql : Buffer) (args : list Value) :
    Buffer * (list Value * option error) :=
  if negb (Insertion.isNil (Insertion.iselect b)) then Insertion.appendSelectToSQL b sql args
  else Insertion.appendValuesToSQL b sql args.

Definition returningClause (b : Insertion.InsertBuilder) (sql : Buffer) (args : list Value) :
    Buffer * (list Value * option error) :=
  if (0 <? length (Insertion.returning b))%nat then
    returning_AppendToSql (Insertion.returning b) sql args
  else (sql, (args, None)).

Definition suffixClause (b : Insertion.InsertBuilder) (sql : Buffer) (args : list Value) :
    Buffer * list Value :=
  if (0 <? length (Insertion.suffixes b))%nat then
    let '(sql, (args, _)) :=
      exprs_AppendToSql (Insertion.suffixes b) (WriteString sql " ") " " args in
    (sql, args)
  else (sql, args).

End Stages.

(** ** Notions used by the further properties *)

(** The number of marker characters of a text, escaped or not. *)
Fixpoint countMarkerChars (s : string) : nat :=
  match s with
  | EmptyString => 0
  | String c rest => (if Ascii.eqb c "?" then 1 else 0) + countMarkerChars rest
  end.

(** A text with every marker character doubled: the way a caller writes
    literal markers for the rewriter. *)
Fixpoint escape (s : string) : string :=
  match s with
  | EmptyString => EmptyString
  | String c rest =>
      if Ascii.eqb c "?" then String "?" (String "?" (escape rest))
      else String c (escape rest)
  end.

Definition startsWithMarker (s : string) : bool :=
  match s with
  | String c _ => Ascii.eqb c "?"
  | EmptyString => false
  end.

(** The number of escaped pairs of a scanned text. *)
Fixpoint count_pairs (ts : list Rewriter.token) : nat :=
  match ts with
  | [] => 0
  | Rewriter.EscapedPair :: ts => S (count_pairs ts)
  | _ :: ts => count_pairs ts
  end.

(** The text returned under a dialect that appends the token [tok i]. *)
Definition rewritten (tok : Z -> string) (s : string) : string :=
  fst (snd (Rewriter.replacePlaceholders (appending tok) s tt)).

(** What the calls of a chain add to each list slot of a WHERE builder. *)
Definition whereCalls (cs : list Filtering.call) : list Sqlizer :=
  cs ≫= fun c =>
    match c with
    | Filtering.CallWhere pred args => [Filtering.newWherePart pred args]
    | _ => []
    end.

Definition havingCalls (cs : list Filtering.call) : list Sqlizer :=
  cs ≫= fun c =>
    match c with
    | Filtering.CallHaving pred rest => [Filtering.newWherePart pred rest]
    | _ => []
    end.

Definition groupByCalls (cs : list Filtering.call) : list string :=
  cs ≫= fun c =>
    match c with
    | Filtering.CallGroupBy names => names
    | _ => []
    end.

Definition orderByCalls (cs : list Filtering.call) : list string :=
  cs ≫= fun c =>
    match c with
    | Filtering.CallOrderBy names => names
    | _ => []
    end.

(** The slot a setter writes. *)
Definition slot (c : Filtering.call) : nat :=
  match c with
  | Filtering.CallWhere _ _ => 0
  | Filtering.CallGroupBy _ => 1
  | Filtering.CallHaving _ _ => 2
  | Filtering.CallOrderBy _ => 3
  | Filtering.CallLimit _ => 4
  | Filtering.CallOffset _ => 5
  end.

(** The predicates that reach the [default] case of [wherePart.ToSql]. *)
Definition unsupported (v : Value) : bool :=
  match v with
  | VBool _ | VInt _ => true
  | _ => false
  end.

(** What a row value that renders contributes to the VALUES clause. *)
Definition valueText (v : Value) : string :=
  match v with
  | VExpr e => expr_sql e
  | VSqlizer sql _ _ => sql
  | _ => "?"
  end.

Definition valueArgs (v : Value) : list Value :=
  match v with
  | VExpr e => expr_args e
  | VSqlizer _ args _ => args
  | v => [v]
  end.

Definition rowText (row : list Value) : string :=
  "(" +:+ String.concat "," (valueText <$> row) +:+ ")".

(** A value bound as an argument: neither an [expr] nor a [Sqlizer]. *)
Definition boundValue (v : Value) : bool :=
  match v with
  | VExpr _ | VSqlizer _ _ _ => false
  | _ => true
  end.

(** * Properties *)

(** ** Strings *)

(** One step of [strings.Index(s, "?")]. *)
Lemma Index_cons (c : ascii) (s : string) :
  strings_Index (String c s) "?" =
  if Ascii.eqb c "?" then Some 0%nat else S <$> strings_Index s "?".
Proof.
  unfold strings_Index. cbn [String.index String.prefix].
  destruct (Ascii.ascii_dec "?" c) as [<-|Hne].
  - destruct s; reflexivity.
  - destruct (Ascii.eqb_spec c "?") as [->|_]; [congruence|].
    destruct (String.index 0 "?" s); reflexivity.
Qed.

Lemma Index_lt (s : string) (p : nat) :
  strings_Index s "?" = Some p -> (p < String.length s)%nat.
Proof.
  revert p. induction s as [|c s IH]; intros p; [discriminate|].
  rewrite Index_cons. destruct (Ascii.eqb c "?").
  - intros [= <-]. simpl. lia.
  - destruct (strings_Index s "?") as [q|]; [|discriminate].
    intros [= <-]. specialize (IH q eq_refl). simpl. lia.
Qed.

Lemma length_substring_le (n m : nat) (s : string) :
  (String.length (String.substring n m s) <= String.length s - n)%nat.
Proof.
  revert n m. induction s as [|c s IH]; intros [|n] [|m]; simpl; try lia.
  - specialize (IH 0%nat m). lia.
  - specialize (IH n 0%nat). simpl in IH. lia.
  - specialize (IH n (S m)). lia.
Qed.

Lemma slice_from_shorter (s : string) (p k : nat) :
  strings_Index s "?" = Some p ->
  (String.length (slice_from s (p + S k)) < String.length s)%nat.
Proof.
  intros Hp. apply Index_lt in Hp. unfold slice_from.
  pose proof (length_substring_le (p + S k) (String.length s - (p + S k)) s).
  lia.
Qed.

Lemma app_cons (c : ascii) (s t : string) :
  String c s +:+ t = String c (s +:+ t).
Proof. reflexivity. Qed.

Lemma app_empty_l (s : string) : EmptyString +:+ s = s.
Proof. reflexivity. Qed.

Lemma app_empty_r (s : string) : s +:+ EmptyString = s.
Proof. induction s as [|c s IH]; [reflexivity|]. now rewrite app_cons, IH. Qed.

Lemma app_assoc_str (s t u : string) : (s +:+ t) +:+ u = s +:+ (t +:+ u).
Proof. induction s as [|c s IH]; [reflexivity|]. now rewrite !app_cons, IH. Qed.

Lemma length_app_str (s t : string) :
  String.length (s +:+ t) = (String.length s + String.length t)%nat.
Proof. induction s as [|c s IH]; [reflexivity|]. rewrite app_cons. simpl. lia. Qed.

Lemma substring_full (s : string) : String.substring 0 (String.length s) s = s.
Proof. induction s as [|c s IH]; [reflexivity|]. simpl. now rewrite IH. Qed.

Lemma substring_prefix (a b : string) :
  String.substring 0 (String.length a) (a +:+ b) = a.
Proof.
  induction a as [|c a IH]; [destruct b; reflexivity|].
  rewrite app_cons. simpl. now rewrite IH.
Qed.

Lemma substring_skip (a b : string) (n m : nat) :
  String.substring (String.length a + n) m (a +:+ b) = String.substring n m b.
Proof. induction a as [|c a IH]; [reflexivity|]. rewrite app_cons. simpl. apply IH. Qed.

Lemma slice_to_prefix (a b : string) : slice_to (a +:+ b) (String.length a) = a.
Proof. apply substring_prefix. Qed.

Lemma slice_from_skip (a b : string) (k : nat) :
  slice_from (a +:+ b) (String.length a + k) = slice_from b k.
Proof.
  unfold slice_from. rewrite substring_skip, length_app_str. f_equal. lia.
Qed.

Lemma slice_from_0 (s : string) : slice_from s 0 = s.
Proof. unfold slice_from. rewrite Nat.sub_0_r. apply substring_full. Qed.

Lemma slice_from_S (c : ascii) (s : string) (k : nat) :
  slice_from (String c s) (S k) = slice_from s k.
Proof. reflexivity. Qed.

Lemma plain_cons (c : ascii) (s : string) :
  plain (String c s) <-> Ascii.eqb c "?" = false /\ plain s.
Proof.
  unfold plain. rewrite Index_cons. destruct (Ascii.eqb c "?").
  - split; [discriminate|intros [? _]; discriminate].
  - destruct (strings_Index s "?"); simpl; split; try discriminate;
      try tauto. intros [_ ?]; discriminate.
Qed.

(** [strings.Index] splits the text at its first marker. *)
Lemma Index_Some_split (s : string) (p : nat) :
  strings_Index s "?" = Some p ->
  exists pre rest, s = pre +:+ String "?" rest /\ String.length pre = p /\ plain pre.
Proof.
  revert p. induction s as [|c s IH]; intros p; [discriminate|].
  rewrite Index_cons. destruct (Ascii.eqb_spec c "?") as [->|Hc].
  - intros [= <-]. exists EmptyString, s. repeat split.
  - destruct (strings_Index s "?") as [q|] eqn:Hq; [|discriminate].
    intros [= <-]. destruct (IH q eq_refl) as (pre & rest & -> & <- & Hpre).
    exists (String c pre), rest. repeat split.
    apply plain_cons. split; [|exact Hpre].
    now apply Ascii.eqb_neq.
Qed.

Section RewriterFacts.
Context {W : Type} (replace : Rewriter.Replacer W).

(** The loop body, as one conditional on the result of [strings.Index]. *)
Lemma replaceLoop_unfold w buf i sql :
  Rewriter.replaceLoop replace w buf i sql =
  match strings_Index sql "?" with
  | None => (w, (WriteString buf sql, None))
  | Some p =>
      if (1 <? len (slice_from sql p)) &&
         String.eqb (slice sql p (p + 2)) "??" then
        let buf := WriteString (WriteString buf (slice_to sql p)) "?" in
        if len (slice_from sql p) =? 1 then (w, (WriteString buf sql, None))
        else Rewriter.replaceLoop replace w buf i (slice_from sql (p + 2))
      else
        match replace w (WriteString buf (slice_to sql p)) (i + 1) with
        | (w', _, Some err) => (w', (EmptyString, Some err))
        | (w', buf', None) =>
            Rewriter.replaceLoop replace w' buf' (i + 1)
              (slice_from sql (p + 1))
        end
  end.
Proof.
  funelim (Rewriter.replaceLoop replace w buf i sql);
    match goal with E : strings_Index _ _ = _ |- _ => rewrite E end;
    reflexivity.
Qed.

Lemma spec_scan_lit (c : ascii) (s : string) :
  Ascii.eqb c "?" = false ->
  Rewriter.spec_scan (String c s) = Rewriter.Lit c :: Rewriter.spec_scan s.
Proof. intros Hc. cbn [Rewriter.spec_scan]. now rewrite Hc. Qed.

Lemma spec_scan_marker (c : ascii) (s : string) :
  Rewriter.spec_scan (String "?" (String c s)) =
  if Ascii.eqb c "?" then Rewriter.EscapedPair :: Rewriter.spec_scan s
  else Rewriter.Marker :: Rewriter.spec_scan (String c s).
Proof. reflexivity. Qed.

(** Literal characters are copied to the buffer. *)
Lemma spec_scan_plain_app (pre s : string) :
  plain pre ->
  Rewriter.spec_scan (pre +:+ String "?" s) =
  (Rewriter.Lit <$> list_ascii_of_string pre) ++ Rewriter.spec_scan (String "?" s).
Proof.
  induction pre as [|c pre IH]; intros Hp; [reflexivity|].
  apply plain_cons in Hp as [Hc Hp]. rewrite app_cons.
  rewrite (spec_scan_lit _ _ Hc), (IH Hp). reflexivity.
Qed.

Lemma spec_scan_plain (s : string) :
  plain s -> Rewriter.spec_scan s = Rewriter.Lit <$> list_ascii_of_string s.
Proof.
  induction s as [|c s IH]; intros Hp; [reflexivity|].
  apply plain_cons in Hp as [Hc Hp].
  rewrite (spec_scan_lit _ _ Hc), (IH Hp). reflexivity.
Qed.

Lemma spec_emit_lits w buf i (s : string) ts :
  Rewriter.spec_emit replace w buf i ((Rewriter.Lit <$> list_ascii_of_string s) ++ ts) =
  Rewriter.spec_emit replace w (buf +:+ s) i ts.
Proof.
  revert buf. induction s as [|c s IH]; intros buf; cbn.
  - now rewrite app_empty_r.
  - rewrite IH. now rewrite app_assoc_str.
Qed.

(** The loop of the source computes what the scan of section 4.5
    prescribes, from every loop state. *)
Lemma replaceLoop_spec_emit sql :
  forall w buf i,
    Rewriter.replaceLoop replace w buf i sql =
    Rewriter.spec_emit replace w buf i (Rewriter.spec_scan sql).
Proof.
  remember (String.length sql) as n eqn:Hn.
  revert sql Hn. induction n as [n IH] using lt_wf_ind. intros sql Hn w buf i.
  rewrite replaceLoop_unfold. unfold WriteString.
  destruct (strings_Index sql "?") as [p|] eqn:Hidx.
  - destruct (Index_Some_split _ _ Hidx) as (pre & rest & Esql & <- & Hpre).
    assert (Hscan : Rewriter.spec_scan sql =
              (Rewriter.Lit <$> list_ascii_of_string pre) ++
              Rewriter.spec_scan (String "?" rest))
      by (rewrite Esql; now apply spec_scan_plain_app).
    assert (E1 : slice_to sql (String.length pre) = pre)
      by (rewrite Esql; apply slice_to_prefix).
    assert (E2 : slice_from sql (String.length pre) = String "?" rest).
    { rewrite <- (Nat.add_0_r (String.length pre)).
      rewrite Esql. now rewrite slice_from_skip, slice_from_0. }
    assert (E3 : slice sql (String.length pre) (String.length pre + 2) =
                 String.substring 0 2 (String "?" rest)).
    { unfold slice. replace (String.length pre + 2 - String.length pre)%nat
        with 2%nat by lia.
      rewrite <- (Nat.add_0_r (String.length pre)) at 1.
      rewrite Esql. apply substring_skip. }
    assert (E4 : slice_from sql (String.length pre + 2) = slice_from rest 1).
    { rewrite Esql. now rewrite slice_from_skip. }
    assert (E5 : slice_from sql (String.length pre + 1) = rest).
    { rewrite Esql. now rewrite slice_from_skip, slice_from_S, slice_from_0. }
    assert (Hsql : String.length sql = (String.length pre + S (String.length rest))%nat)
      by (rewrite Esql; now rewrite length_app_str).
    rewrite Hscan, spec_emit_lits, E1, E2, E3, E4, E5.
    clear E1 E2 E3 E4 E5 Hscan Esql Hidx.
    destruct rest as [|c rest].
    + (* the marker is the last character *)
      cbn [Rewriter.spec_scan Rewriter.spec_emit]. rewrite Ascii.eqb_refl.
      cbn [Rewriter.spec_emit].
      change (1 <? len (String "?" EmptyString)) with false. cbn [andb].
      destruct (replace w (buf +:+ pre) (i + 1)) as [[w' buf'] [e|]];
        [reflexivity|].
      apply (IH 0%nat); [lia|reflexivity].
    + assert (Hlen : (1 <? len (String "?" (String c rest))) = true).
      { unfold len. simpl String.length. apply Z.ltb_lt. lia. }
      assert (Hne : (len (String "?" (String c rest)) =? 1) = false).
      { unfold len. simpl String.length. apply Z.eqb_neq. lia. }
      rewrite Hlen, Hne. cbn [andb].
      rewrite slice_from_S, slice_from_0, spec_scan_marker.
      assert (Hsub : String.substring 0 2 (String "?" (String c rest)) =
                     String "?" (String c EmptyString))
        by (destruct rest; reflexivity).
      rewrite Hsub.
      destruct (Ascii.eqb_spec c "?") as [->|Hc].
      * (* an escaped pair *)
        change (String.eqb "??" "??") with true.
        cbn [Rewriter.spec_emit].
        apply (IH (String.length rest)); [simpl in Hsql; lia|reflexivity].
      * (* an unescaped marker *)
        replace (String.eqb (String "?" (String c EmptyString)) "??") with false.
        2:{ symmetry. apply String.eqb_neq. intros [= ->]. now apply Hc. }
        cbn [Rewriter.spec_emit].
        destruct (replace w (buf +:+ pre) (i + 1)) as [[w' buf'] [e|]];
          [reflexivity|].
        apply (IH (S (String.length rest))); [simpl in Hsql; lia|reflexivity].
  - rewrite (spec_scan_plain sql Hidx).
    rewrite <- (app_nil_r (Rewriter.Lit <$> _)). rewrite spec_emit_lits.
    reflexivity.
Qed.

End RewriterFacts.

(** ** The call log of the rewriter *)

Lemma okCalls_S (i : Z) (n : nat) :
  okCalls i (S n) = (i + 1, None) :: okCalls (i + 1) n.
Proof.
  unfold okCalls. cbn [seq fmap list_fmap]. f_equal.
  rewrite <- seq_shift, <- list_fmap_compose.
  apply list_fmap_ext. intros _ j _. cbn. f_equal. lia.
Qed.

Lemma okCalls_all_ok (i : Z) (n : nat) :
  Forall (fun c : Z * option error => snd c = None) (okCalls i n).
Proof. unfold okCalls. apply Forall_fmap, Forall_true. reflexivity. Qed.

Lemma okCalls_indices (n : nat) :
  okCalls 0 n = (fun i => (i, None)) <$> Rewriter.indices n.
Proof.
  unfold okCalls, Rewriter.indices. rewrite <- list_fmap_compose.
  apply list_fmap_ext. intros _ j _. reflexivity.
Qed.

Lemma count_markers_scan_le (s : string) :
  (Rewriter.count_markers (Rewriter.spec_scan s) <= String.length s)%nat.
Proof.
  remember (String.length s) as n eqn:Hn. revert s Hn.
  induction n as [n IH] using lt_wf_ind. intros [|c s] ->; [reflexivity|].
  destruct (Ascii.eqb_spec c "?") as [->|Hc].
  - destruct s as [|c' s]; [cbn; lia|].
    rewrite spec_scan_marker.
    destruct (Ascii.eqb c' "?"); cbn [Rewriter.count_markers].
    + specialize (IH (String.length s) ltac:(simpl; lia) s eq_refl).
      simpl String.length. lia.
    + specialize (IH (String.length (String c' s)) ltac:(simpl; lia) _ eq_refl).
      change (String.length (String "?" (String c' s)))
        with (S (String.length (String c' s))). lia.
  - rewrite spec_scan_lit by now apply Ascii.eqb_neq.
    cbn [Rewriter.count_markers].
    specialize (IH (String.length s) ltac:(simpl; lia) s eq_refl).
    simpl String.length. lia.
Qed.

Section CallLog.
Context {W : Type} (replace : Rewriter.Replacer W).

(** The log is a ghost: it does not change the run. *)
Lemma spec_emit_logged_erase ts :
  forall w l buf i,
    (let '((w', _), r) := Rewriter.spec_emit (Rewriter.logged replace) (w, l) buf i ts
     in (w', r)) = Rewriter.spec_emit replace w buf i ts.
Proof.
  induction ts as [|[c| |] ts IH]; intros w l buf i; cbn [Rewriter.spec_emit];
    try apply IH; [reflexivity|].
  unfold Rewriter.logged at 1. cbn [fst snd].
  destruct (replace w buf (i + 1)) as [[w' buf'] [e|]]; [reflexivity|apply IH].
Qed.

(** The calls made for a scanned text: one per unescaped marker, with
    consecutive indices, up to and including the first call that fails. *)
Lemma spec_emit_log ts :
  forall w l buf i,
    let '((_, l'), (out, err)) :=
      Rewriter.spec_emit (Rewriter.logged replace) (w, l) buf i ts in
    match err with
    | None => l' = l ++ okCalls i (Rewriter.count_markers ts)
    | Some e =>
        out = EmptyString /\
        exists j, (j < Rewriter.count_markers ts)%nat /\
          l' = l ++ okCalls i j ++ [(i + Z.of_nat (S j), Some e)]
    end.
Proof.
  induction ts as [|[c| |] ts IH]; intros w l buf i; cbn [Rewriter.spec_emit];
    try apply IH.
  - cbn. now rewrite app_nil_r.
  - unfold Rewriter.logged at 1. cbn [fst snd Rewriter.count_markers].
    destruct (replace w buf (i + 1)) as [[w' buf'] [e|]].
    + split; [reflexivity|]. exists 0%nat. split; [lia|]. reflexivity.
    + specialize (IH w' (l ++ [(i + 1, None)]) buf' (i + 1)).
      destruct (Rewriter.spec_emit _ _ _ _ ts) as [[w'' l'] [out [e|]]].
      * destruct IH as [-> (j & Hj & ->)]. split; [reflexivity|].
        exists (S j). split; [lia|].
        replace (i + Z.of_nat (S (S j))) with (i + 1 + Z.of_nat (S j)) by lia.
        rewrite okCalls_S, <- app_assoc. reflexivity.
      * rewrite IH, okCalls_S, <- app_assoc. reflexivity.
Qed.

End CallLog.

(** With an emit function that never fails the scan reports no error. *)
Lemma spec_emit_never_fails {W : Type} (replace : Rewriter.Replacer W) ts :
  (forall w b i, snd (replace w b i) = None) ->
  forall w buf i, snd (snd (Rewriter.spec_emit replace w buf i ts)) = None.
Proof.
  intros Hok.
  induction ts as [|[c| |] ts IH]; intros w buf i; cbn [Rewriter.spec_emit];
    try apply IH; [reflexivity|].
  specialize (Hok w buf (i + 1)).
  destruct (replace w buf (i + 1)) as [[w' buf'] [e|]]; [discriminate|apply IH].
Qed.

Lemma spec_emit_appending (tok : Z -> string) ts :
  forall buf i,
    Rewriter.spec_emit (appending tok) tt buf i ts =
    (tt, (buf +:+ spec_render tok i ts, None)).
Proof.
  induction ts as [|[c| |] ts IH]; intros buf i;
    cbn [Rewriter.spec_emit spec_render].
  - now rewrite app_empty_r.
  - rewrite IH, app_assoc_str. reflexivity.
  - rewrite IH, app_assoc_str. reflexivity.
  - unfold appending at 1, WriteString. rewrite IH, app_assoc_str. reflexivity.
Qed.

(** C1: a text with [k] unescaped markers makes the rewriter call the emit
    function once per unescaped marker, with the indices [1..k] in the order
    of the markers: exactly [k] calls when no call fails, as is the case of
    an emit function that never fails, and the calls up to the first failing
    one otherwise.  An escaped pair yields one literal marker in the output
    and leaves the index alone.  [k] never exceeds the length of the
    text. *)
Theorem rewriter_calls_emit_once_per_marker :
  forall (W : Type) (replace : Rewriter.Replacer W) (w : W) (sql : string),
    let k := Rewriter.markers sql in
    Rewriter.replacePlaceholders replace sql w =
      Rewriter.spec_emit replace w EmptyString 0 (Rewriter.spec_scan sql)
    /\ (k <= String.length sql)%nat
    /\ (let '((w', log), (out, err)) :=
          Rewriter.replacePlaceholders (Rewriter.logged replace) sql (w, []) in
        (w', (out, err)) = Rewriter.replacePlaceholders replace sql w /\
        match err with
        | None => log = (fun i => (i, None)) <$> Rewriter.indices k
        | Some e =>
            exists j, (j < k)%nat /\
              log = ((fun i => (i, None)) <$> Rewriter.indices j) ++
                    [(Z.of_nat (S j), Some e)]
        end)
    /\ ((forall w b i, snd (replace w b i) = None) ->
        snd (fst (Rewriter.replacePlaceholders (Rewriter.logged replace) sql (w, [])))
        = (fun i => (i, None)) <$> Rewriter.indices k)
    /\ (forall tok : Z -> string,
          snd (Rewriter.replacePlaceholders (appending tok) sql tt) =
          (spec_render tok 0 (Rewriter.spec_scan sql), None)).
Proof.
  intros W replace w sql k. unfold Rewriter.replacePlaceholders.
  split; [apply replaceLoop_spec_emit|].
  split; [apply count_markers_scan_le|].
  split; [|split].
  2:{ intros Hok. rewrite replaceLoop_spec_emit.
      pose proof (spec_emit_logged_erase replace (Rewriter.spec_scan sql) w [] EmptyString 0) as Her.
      pose proof (spec_emit_log replace (Rewriter.spec_scan sql) w [] EmptyString 0) as Hlog.
      pose proof (spec_emit_never_fails replace (Rewriter.spec_scan sql) Hok w EmptyString 0) as Hnone.
      destruct (Rewriter.spec_emit (Rewriter.logged replace) _ _ _ _)
        as [[w' log] [out err]].
      rewrite <- Her in Hnone. cbn [fst snd] in Hnone |- *. subst err.
      rewrite Hlog. cbn [app]. apply okCalls_indices. }
  - rewrite !replaceLoop_spec_emit.
    pose proof (spec_emit_logged_erase replace (Rewriter.spec_scan sql) w [] EmptyString 0) as Her.
    pose proof (spec_emit_log replace (Rewriter.spec_scan sql) w [] EmptyString 0) as Hlog.
    destruct (Rewriter.spec_emit (Rewriter.logged replace) _ _ _ _)
      as [[w' log] [out [e|]]]; split; try exact Her.
    + destruct Hlog as [_ (j & Hj & ->)]. exists j. split; [exact Hj|].
      cbn [app]. now rewrite okCalls_indices, Z.add_0_l.
    + rewrite Hlog. cbn [app]. apply okCalls_indices.
  - intros tok. rewrite replaceLoop_spec_emit, spec_emit_appending. reflexivity.
Qed.

Lemma rewriter_calls_emit_once_per_marker_witness :
  (forall w b i, snd (Rewriter.mini w b i) = None)
  /\ snd (fst (Rewriter.replacePlaceholders (Rewriter.logged Rewriter.mini)
                "a = ? AND b = ??x ? c" (tt, [])))
     = [(1, None); (2, None)].
Proof.
  split; [reflexivity|].
  destruct (rewriter_calls_emit_once_per_marker unit Rewriter.mini tt
              "a = ? AND b = ??x ? c") as (_ & _ & _ & H & _).
  exact (H (fun _ _ _ => eq_refl)).
Defined.

(** C2: the text of scenario 1, rewritten with the indexed dialect. *)
Theorem rewrite_scenario_indexed :
  Rewriter.replacePlaceholders Rewriter.mini "a = ? AND b = ??x ? c" tt
    = (tt, ("a = $1 AND b = ?x $2 c"%string, None))
  /\ ReplacePlaceholders Dollar "a = ? AND b = ??x ? c"
    = ("a = $1 AND b = ?x $2 c"%string, None).
Proof. split; vm_compute; reflexivity. Qed.

Lemma spec_emit_app {W : Type} (replace : Rewriter.Replacer W) ts1 ts2 :
  forall w buf i,
    Rewriter.spec_emit replace w buf i (ts1 ++ ts2) =
    match Rewriter.spec_emit replace w buf i ts1 with
    | (w', (out, None)) =>
        Rewriter.spec_emit replace w' out (i + Z.of_nat (Rewriter.count_markers ts1)) ts2
    | r => r
    end.
Proof.
  induction ts1 as [|[c| |] ts1 IH]; intros w buf i;
    cbn [app Rewriter.spec_emit Rewriter.count_markers]; try apply IH.
  - now rewrite Z.add_0_r.
  - destruct (replace w buf (i + 1)) as [[w' buf'] [e|]]; [reflexivity|].
    rewrite IH. destruct (Rewriter.spec_emit replace w' buf' (i + 1) ts1)
      as [w'' [out [e|]]]; [reflexivity|]. f_equal. lia.
Qed.

(** A marker character that follows a text without marker characters and
    is not followed by another one is an unescaped marker. *)
Lemma unescapedMarkerAt_first (s t : string) :
  plain s -> startsWithMarker t = false -> unescapedMarkerAt s t.
Proof.
  intros Hs Ht. unfold unescapedMarkerAt.
  rewrite (spec_scan_plain_app _ _ Hs), (spec_scan_plain _ Hs). f_equal.
  destruct t as [|c t]; [reflexivity|].
  cbn [startsWithMarker] in Ht. now rewrite spec_scan_marker, Ht.
Qed.

(** C10: when the emit function returns an error at an unescaped marker,
    the rewriter returns that error together with the empty string: the
    buffer built so far is dropped.  The emit function is called at every
    unescaped marker reached, with the output built so far and the next
    index; if that call fails the run ends there with its error, and if it
    succeeds the run goes on from the buffer it left.  Conversely an error
    returned by the rewriter is the error of the last call made, every
    earlier call having succeeded, so with an emit function that never
    fails the rewriter never fails. *)
Theorem rewriter_returns_emit_error :
  forall (W : Type) (replace : Rewriter.Replacer W) (w : W) (sql : string),
    (forall (s t : string) (w1 w2 : W) (out buf' : Buffer) (e : error),
       sql = s +:+ String "?" t ->
       unescapedMarkerAt s t ->
       Rewriter.replacePlaceholders replace s w = (w1, (out, None)) ->
       replace w1 out (Z.of_nat (Rewriter.markers s) + 1) = (w2, buf', Some e) ->
       Rewriter.replacePlaceholders replace sql w = (w2, (EmptyString, Some e)))
    /\ (forall (s t : string) (w1 w2 : W) (out buf' : Buffer),
          sql = s +:+ String "?" t ->
          unescapedMarkerAt s t ->
          Rewriter.replacePlaceholders replace s w = (w1, (out, None)) ->
          replace w1 out (Z.of_nat (Rewriter.markers s) + 1) = (w2, buf', None) ->
          Rewriter.replacePlaceholders replace sql w =
          Rewriter.replaceLoop replace w2 buf' (Z.of_nat (Rewriter.markers s) + 1) t)
    /\ (let '((w', log), (out, err)) :=
          Rewriter.replacePlaceholders (Rewriter.logged replace) sql (w, []) in
        (w', (out, err)) = Rewriter.replacePlaceholders replace sql w /\
        match err with
        | Some e =>
            out = EmptyString /\
            exists calls i, log = calls ++ [(i, Some e)] /\
              Forall (fun c => snd c = None) calls
        | None => Forall (fun c => snd c = None) log
        end)
    /\ ((forall w b i, snd (replace w b i) = None) ->
        snd (snd (Rewriter.replacePlaceholders replace sql w)) = None).
Proof.
  intros W replace w sql. unfold Rewriter.replacePlaceholders.
  assert (Hstep : forall s t w1 out,
            sql = s +:+ String "?" t -> unescapedMarkerAt s t ->
            Rewriter.replaceLoop replace w EmptyString 0 s = (w1, (out, None)) ->
            Rewriter.replaceLoop replace w EmptyString 0 sql =
            match replace w1 out (Z.of_nat (Rewriter.markers s) + 1) with
            | (w2, _, Some e) => (w2, (EmptyString, Some e))
            | (w2, buf', None) =>
                Rewriter.replaceLoop replace w2 buf' (Z.of_nat (Rewriter.markers s) + 1) t
            end).
  { intros s t w1 out -> Hm Hs. unfold unescapedMarkerAt in Hm.
    rewrite replaceLoop_spec_emit in Hs.
    rewrite replaceLoop_spec_emit, Hm, spec_emit_app, Hs.
    cbn [Rewriter.spec_emit]. rewrite Z.add_0_l. unfold Rewriter.markers.
    destruct (replace w1 out _) as [[w2 buf'] [e|]]; [reflexivity|].
    now rewrite replaceLoop_spec_emit. }
  split; [|split; [|split]].
  - intros s t w1 w2 out buf' e Hsql Hm Hs Hr.
    rewrite (Hstep s t w1 out Hsql Hm Hs), Hr. reflexivity.
  - intros s t w1 w2 out buf' Hsql Hm Hs Hr.
    rewrite (Hstep s t w1 out Hsql Hm Hs), Hr. reflexivity.
  - rewrite !replaceLoop_spec_emit.
    pose proof (spec_emit_logged_erase replace (Rewriter.spec_scan sql) w [] EmptyString 0) as Her.
    pose proof (spec_emit_log replace (Rewriter.spec_scan sql) w [] EmptyString 0) as Hlog.
    destruct (Rewriter.spec_emit (Rewriter.logged replace) _ _ _ _)
      as [[w' log] [out [e|]]]; split; try exact Her.
    + destruct Hlog as [-> (j & Hj & ->)]. split; [reflexivity|].
      exists (okCalls 0 j), (0 + Z.of_nat (S j)). split; [reflexivity|].
      apply okCalls_all_ok.
    + rewrite Hlog. apply okCalls_all_ok.
  - intros Hok. rewrite replaceLoop_spec_emit.
    now apply spec_emit_never_fails.
Qed.

(** An emit function that fails at its second call. *)
Lemma rewriter_returns_emit_error_witness :
  let failing2 : Rewriter.Replacer unit :=
    fun w buf i =>
      if i =? 2 then (w, buf, Some (Errorf "no second parameter"))
      else Rewriter.mini w buf i in
  unescapedMarkerAt "a = ? AND b = " " AND c = ?"
  /\ Rewriter.replacePlaceholders failing2 "a = ? AND b = " tt
     = (tt, ("a = $1 AND b = "%string, None))
  /\ Rewriter.replacePlaceholders failing2 "a = ? AND b = ? AND c = ?" tt
     = (tt, (EmptyString, Some (Errorf "no second parameter")))
  /\ (forall w b i, snd (Rewriter.mini w b i) = None)
  /\ snd (snd (Rewriter.replacePlaceholders Rewriter.mini "x = ? AND y = ??" tt)) = None.
Proof.
  intros failing2.
  assert (Hm : unescapedMarkerAt "a = ? AND b = " " AND c = ?") by reflexivity.
  assert (Hs : Rewriter.replacePlaceholders failing2 "a = ? AND b = " tt
               = (tt, ("a = $1 AND b = "%string, None))) by (vm_compute; reflexivity).
  split; [exact Hm|]. split; [exact Hs|]. split.
  - destruct (rewriter_returns_emit_error unit failing2 tt "a = ? AND b = ? AND c = ?")
      as (H & _).
    exact (H "a = ? AND b = "%string " AND c = ?"%string tt tt
             "a = $1 AND b = "%string "a = $1 AND b = "%string
             (Errorf "no second parameter") eq_refl Hm Hs eq_refl).
  - split; [reflexivity|].
    apply (rewriter_returns_emit_error unit Rewriter.mini tt "x = ? AND y = ??").
    reflexivity.
Defined.

(** ** Fragment sequences *)

Lemma concat_cons_joinFrom (sep t : string) (ts : list string) :
  String.concat sep (t :: ts) = t +:+ joinFrom true sep ts.
Proof.
  destruct ts as [|t' ts]; cbn [String.concat joinFrom].
  - now rewrite app_empty_r.
  - reflexivity.
Qed.

Lemma length_0_empty (s : string) :
  (String.length s =? 0)%nat = bool_decide (s = EmptyString).
Proof. destruct s; reflexivity. Qed.

Lemma appendToSql_from_spec (parts : list Sqlizer) (sep : string) :
  forall wrote w args,
    match firstError parts with
    | Some err => exists w', appendToSql_from wrote parts w sep args = (w', ([], Some err))
    | None =>
        appendToSql_from wrote parts w sep args =
        (w +:+ joinFrom wrote sep (nonEmptyTexts parts), (args ++ allArgs parts, None))
    end.
Proof.
  induction parts as [|p parts IH]; intros wrote w args.
  - cbn. now rewrite app_empty_r, app_nil_r.
  - cbn [firstError appendToSql_from]. unfold partErr, nonEmptyTexts, allArgs.
    cbn [fmap list_fmap mbind list_bind]. unfold partText at 1, partArgs at 1.
    destruct (ToSql p) as [[partSql pArgs] [err|]]; cbn [fst snd].
    + exists w. reflexivity.
    + rewrite length_0_empty, filter_cons.
      destruct (decide (partSql <> EmptyString)) as [Hne|Heq].
      * rewrite bool_decide_eq_false_2 by exact Hne.
        specialize (IH true (WriteString (if wrote then WriteString w sep else w) partSql)
                      (args ++ pArgs)).
        fold (nonEmptyTexts parts). fold (allArgs parts).
        destruct (firstError parts) as [err|].
        -- exact IH.
        -- rewrite IH. cbn [joinFrom]. rewrite concat_cons_joinFrom.
           unfold WriteString. rewrite <- app_assoc.
           destruct wrote; now rewrite !app_assoc_str.
      * assert (partSql = EmptyString) as -> by (destruct partSql; [reflexivity|exfalso; apply Heq; discriminate]).
        rewrite bool_decide_eq_true_2 by reflexivity.
        specialize (IH wrote w (args ++ pArgs)).
        fold (nonEmptyTexts parts). fold (allArgs parts).
        destruct (firstError parts) as [err|]; [exact IH|].
        rewrite IH, <- app_assoc. reflexivity.
Qed.

Lemma appendToSql_spec (parts : list Sqlizer) (w : Buffer) (sep : string) (args : list Value) :
  match firstError parts with
  | Some err => exists w', appendToSql parts w sep args = (w', ([], Some err))
  | None =>
      appendToSql parts w sep args =
      (w +:+ spec_join sep parts, (args ++ allArgs parts, None))
  end.
Proof.
  pose proof (appendToSql_from_spec parts sep false w args) as H.
  unfold appendToSql, spec_join. destruct (firstError parts); [exact H|].
  rewrite H. unfold joinFrom. destruct (nonEmptyTexts parts); reflexivity.
Qed.

Lemma guarded_appendToSql (parts : list Sqlizer) (w : Buffer) (kw sep : string)
    (args : list Value) :
  (if (0 <? length parts)%nat
   then appendToSql parts (WriteString w kw) sep args
   else (w, (args, None))) =
  match firstError parts with
  | Some err => (fst (appendToSql parts (WriteString w kw) sep args), ([], Some err))
  | None => (w +:+ joinClause kw sep parts, (args ++ allArgs parts, None))
  end.
Proof.
  destruct parts as [|p parts].
  - cbn. now rewrite app_empty_r, app_nil_r.
  - cbn [length Nat.ltb Nat.leb].
    pose proof (appendToSql_spec (p :: parts) (WriteString w kw) sep args) as H.
    destruct (firstError (p :: parts)); [destruct H as [w' ->]; reflexivity|].
    rewrite H. unfold WriteString, joinClause. now rewrite app_assoc_str.
Qed.

(** [ToSql] of the WHERE builder, clause by clause. *)
Lemma WhereBuilder_ToSql_spec (b : Filtering.WhereBuilder) :
  Filtering.WhereBuilder_ToSql b =
  match firstError (Filtering.whereParts b) with
  | Some err => (EmptyString, [], Some err)
  | None =>
      match firstError (Filtering.havingParts b) with
      | Some err => (EmptyString, [], Some err)
      | None =>
          let '(sqlStr, err) :=
            ReplacePlaceholders (Filtering.placeholderFormat b) (spec_text b) in
          (sqlStr, allArgs (Filtering.whereParts b) ++ allArgs (Filtering.havingParts b), err)
      end
  end.
Proof.
  unfold Filtering.WhereBuilder_ToSql. cbv zeta.
  rewrite guarded_appendToSql.
  destruct (firstError (Filtering.whereParts b)) as [e|]; [reflexivity|].
  rewrite guarded_appendToSql.
  destruct (firstError (Filtering.havingParts b)) as [e|]; [reflexivity|].
  match goal with
  | |- (let '(_, _) := ReplacePlaceholders _ ?a in _) =
       (let '(_, _) := ReplacePlaceholders _ ?b in _) =>
      replace a with b; [reflexivity|]
  end.
  unfold spec_text, whereClause, groupByClause, havingClause, orderByClause,
    limitClause, offsetClause, limitText, offsetText, joinClause, WriteString.
  destruct (Filtering.whereParts b), (Filtering.groupBys b),
    (Filtering.havingParts b), (Filtering.orderBys b),
    (Filtering.limitValid b), (Filtering.offsetValid b);
    cbn [length Nat.ltb Nat.leb];
    rewrite ?app_empty_r, ?app_empty_l, ?app_assoc_str; reflexivity.
Qed.

(** ** Rewriting texts with a marker-free prefix or suffix *)

Lemma plain_empty : plain EmptyString.
Proof. reflexivity. Qed.

Lemma plain_app (s t : string) : plain (s +:+ t) <-> plain s /\ plain t.
Proof.
  induction s as [|c s IH].
  - rewrite app_empty_l. split; [intros H; split; [apply plain_empty|exact H]|tauto].
  - rewrite app_cons, !plain_cons, IH. tauto.
Qed.

Lemma spec_scan_plain_prefix (pre s : string) :
  plain pre ->
  Rewriter.spec_scan (pre +:+ s) =
  (Rewriter.Lit <$> list_ascii_of_string pre) ++ Rewriter.spec_scan s.
Proof.
  induction pre as [|c pre IH]; intros Hp; [reflexivity|].
  apply plain_cons in Hp as [Hc Hp]. rewrite app_cons.
  rewrite (spec_scan_lit _ _ Hc), (IH Hp). reflexivity.
Qed.

Lemma spec_scan_plain_suffix (s t : string) :
  plain t ->
  Rewriter.spec_scan (s +:+ t) =
  Rewriter.spec_scan s ++ (Rewriter.Lit <$> list_ascii_of_string t).
Proof.
  intros Ht. remember (String.length s) as n eqn:Hn. revert s Hn.
  induction n as [n IH] using lt_wf_ind. intros [|c s] ->.
  - rewrite app_empty_l. now apply spec_scan_plain.
  - rewrite app_cons. destruct (Ascii.eqb_spec c "?") as [->|Hc].
    + destruct s as [|c' s].
      * rewrite app_empty_l. destruct t as [|c' t]; [reflexivity|].
        pose proof Ht as Ht'. apply plain_cons in Ht' as [Hc' _].
        rewrite spec_scan_marker, Hc'.
        change (Rewriter.spec_scan "?") with [Rewriter.Marker].
        cbn [app]. f_equal. now apply spec_scan_plain.
      * rewrite app_cons, !spec_scan_marker.
        destruct (Ascii.eqb c' "?").
        -- cbn [app]. f_equal.
           apply (IH (String.length s)); [simpl; lia|reflexivity].
        -- cbn [app]. f_equal. rewrite <- app_cons.
           apply (IH (String.length (String c' s))); [simpl; lia|reflexivity].
    + apply Ascii.eqb_neq in Hc. rewrite !(spec_scan_lit _ _ Hc). cbn [app]. f_equal.
      apply (IH (String.length s)); [simpl; lia|reflexivity].
Qed.

Lemma spec_emit_app_lits {W : Type} (replace : Rewriter.Replacer W) ts (t : string) :
  forall w buf i,
    Rewriter.spec_emit replace w buf i (ts ++ (Rewriter.Lit <$> list_ascii_of_string t)) =
    let '(w', (out, err)) := Rewriter.spec_emit replace w buf i ts in
    (w', (match err with None => out +:+ t | Some _ => out end, err)).
Proof.
  induction ts as [|[c| |] ts IH]; intros w buf i; cbn [app Rewriter.spec_emit];
    try apply IH.
  - rewrite <- (app_nil_r (Rewriter.Lit <$> _)), spec_emit_lits. reflexivity.
  - destruct (replace w buf (i + 1)) as [[w' buf'] [e|]]; [reflexivity|apply IH].
Qed.

(** A text without marker is returned as it is, and nothing is emitted. *)
Lemma replacePlaceholders_plain {W : Type} (replace : Rewriter.Replacer W) (s : string) (w : W) :
  plain s -> Rewriter.replacePlaceholders replace s w = (w, (s, None)).
Proof.
  intros Hs. unfold Rewriter.replacePlaceholders.
  rewrite replaceLoop_unfold. unfold plain in Hs. rewrite Hs. reflexivity.
Qed.

(** A marker-free suffix is copied after the rewritten text. *)
Lemma replacePlaceholders_plain_suffix {W : Type} (replace : Rewriter.Replacer W)
    (s t : string) (w : W) :
  plain t ->
  Rewriter.replacePlaceholders replace (s +:+ t) w =
  let '(w', (out, err)) := Rewriter.replacePlaceholders replace s w in
  (w', (match err with None => out +:+ t | Some _ => out end, err)).
Proof.
  intros Ht. unfold Rewriter.replacePlaceholders.
  rewrite !replaceLoop_spec_emit, (spec_scan_plain_suffix _ _ Ht).
  apply spec_emit_app_lits.
Qed.

Lemma spec_render_lits (tok : Z -> string) (i : Z) (s : string) ts :
  spec_render tok i ((Rewriter.Lit <$> list_ascii_of_string s) ++ ts) =
  s +:+ spec_render tok i ts.
Proof. induction s as [|c s IH]; [reflexivity|]. cbn. now rewrite IH. Qed.

(** Under an appending dialect a marker-free prefix is kept. *)
Lemma rewriterFormat_appending_prefix (tok : Z -> string) (pre s : string) :
  plain pre ->
  ReplacePlaceholders (rewriterFormat (appending tok)) (pre +:+ s) =
  (pre +:+ spec_render tok 0 (Rewriter.spec_scan s), None).
Proof.
  intros Hp. cbn [ReplacePlaceholders rewriterFormat].
  unfold Rewriter.replacePlaceholders.
  rewrite replaceLoop_spec_emit, spec_emit_appending, (spec_scan_plain_prefix _ _ Hp).
  cbn [snd]. now rewrite spec_render_lits.
Qed.

(** Decimal numerals hold no marker. *)
Lemma plain_string_of_uint (d : Decimal.uint) : plain (NilEmpty.string_of_uint d).
Proof.
  induction d; cbn [NilEmpty.string_of_uint]; [apply plain_empty|..];
    (apply plain_cons; split; [reflexivity|assumption]).
Qed.

Lemma plain_FormatUint (n : N) : plain (FormatUint n).
Proof.
  unfold FormatUint, NilZero.string_of_uint.
  destruct (N.to_uint n); try apply plain_string_of_uint. reflexivity.
Qed.

Lemma plain_limit_offset (l o : option N) : plain (limitText l +:+ offsetText o).
Proof.
  apply plain_app. split.
  - destruct l as [n|]; [|apply plain_empty]. apply plain_app. split;
      [reflexivity|apply plain_FormatUint].
  - destruct o as [n|]; [|apply plain_empty]. apply plain_app. split;
      [reflexivity|apply plain_FormatUint].
Qed.

(** ** Chains of setter calls *)

Lemma chain_limit (cs : list Filtering.call) :
  forall b,
    (if Filtering.limitValid (Filtering.chain b cs)
     then Some (Filtering.limit (Filtering.chain b cs)) else None) =
    match Filtering.lastLimit cs with
    | Some n => Some n
    | None => if Filtering.limitValid b then Some (Filtering.limit b) else None
    end.
Proof.
  induction cs as [|c cs IH]; intros b; [reflexivity|].
  cbn [Filtering.chain fold_left Filtering.lastLimit].
  change (fold_left Filtering.apply cs (Filtering.apply b c))
    with (Filtering.chain (Filtering.apply b c) cs).
  rewrite IH. destruct (Filtering.lastLimit cs); [reflexivity|].
  destruct c; reflexivity.
Qed.

Lemma chain_offset (cs : list Filtering.call) :
  forall b,
    (if Filtering.offsetValid (Filtering.chain b cs)
     then Some (Filtering.offset (Filtering.chain b cs)) else None) =
    match Filtering.lastOffset cs with
    | Some n => Some n
    | None => if Filtering.offsetValid b then Some (Filtering.offset b) else None
    end.
Proof.
  induction cs as [|c cs IH]; intros b; [reflexivity|].
  cbn [Filtering.chain fold_left Filtering.lastOffset].
  change (fold_left Filtering.apply cs (Filtering.apply b c))
    with (Filtering.chain (Filtering.apply b c) cs).
  rewrite IH. destruct (Filtering.lastOffset cs); [reflexivity|].
  destruct c; reflexivity.
Qed.

Lemma chain_placeholderFormat (cs : list Filtering.call) :
  forall b,
    Filtering.placeholderFormat (Filtering.chain b cs) = Filtering.placeholderFormat b.
Proof.
  induction cs as [|c cs IH]; intros b; [reflexivity|].
  cbn [Filtering.chain fold_left].
  change (fold_left Filtering.apply cs (Filtering.apply b c))
    with (Filtering.chain (Filtering.apply b c) cs).
  rewrite IH. destruct c; reflexivity.
Qed.

(** What [ToSql] returns when it succeeds. *)
Lemma WhereBuilder_ToSql_ok (b : Filtering.WhereBuilder) sqlStr args :
  Filtering.WhereBuilder_ToSql b = (sqlStr, args, None) ->
  ReplacePlaceholders (Filtering.placeholderFormat b) (spec_text b) = (sqlStr, None)
  /\ args = allArgs (Filtering.whereParts b) ++ allArgs (Filtering.havingParts b).
Proof.
  rewrite WhereBuilder_ToSql_spec.
  destruct (firstError (Filtering.whereParts b)); [discriminate|].
  destruct (firstError (Filtering.havingParts b)); [discriminate|].
  destruct (ReplacePlaceholders _ _) as [s e]. intros [= -> <- ->]. split; reflexivity.
Qed.

(** C6: when [ToSql] of the WHERE builder succeeds, its text is the
    placeholder rewriting, by the builder's own format, of the clauses in
    this order, each present only when its slot is not empty or its flag is
    set: " WHERE " and the where parts joined with " AND ", " GROUP BY " and
    the names joined with ", ", " HAVING " and its parts joined with " AND ",
    " ORDER BY " and the names joined with ", ", " LIMIT n", " OFFSET n".
    The arguments are those of the where parts, then of the having parts. *)
Theorem where_render_clause_order :
  forall (b : Filtering.WhereBuilder) (sqlStr : string) (args : list Value),
    Filtering.WhereBuilder_ToSql b = (sqlStr, args, None) ->
    ReplacePlaceholders (Filtering.placeholderFormat b)
      ((match Filtering.whereParts b with
        | [] => EmptyString
        | parts => " WHERE " +:+ spec_join " AND " parts
        end) +:+
       (match Filtering.groupBys b with
        | [] => EmptyString
        | names => " GROUP BY " +:+ String.concat ", " names
        end) +:+
       (match Filtering.havingParts b with
        | [] => EmptyString
        | parts => " HAVING " +:+ spec_join " AND " parts
        end) +:+
       (match Filtering.orderBys b with
        | [] => EmptyString
        | names => " ORDER BY " +:+ String.concat ", " names
        end) +:+
       (if Filtering.limitValid b
        then " LIMIT " +:+ FormatUint (Filtering.limit b) else EmptyString) +:+
       (if Filtering.offsetValid b
        then " OFFSET " +:+ FormatUint (Filtering.offset b) else EmptyString))
    = (sqlStr, None)
    /\ args = allArgs (Filtering.whereParts b) ++ allArgs (Filtering.havingParts b).
Proof.
  intros b sqlStr args H. apply WhereBuilder_ToSql_ok in H as [H ->].
  split; [|reflexivity]. rewrite <- H. unfold spec_text, whereClause,
    groupByClause, havingClause, orderByClause, limitClause, offsetClause.
  destruct (Filtering.limitValid b), (Filtering.offsetValid b); reflexivity.
Qed.

Lemma where_render_clause_order_witness :
  let b := Filtering.chain (Filtering.empty Dollar)
             [Filtering.CallWhere (VString "a = ?") [VInt 1];
              Filtering.CallWhere (VString "b = ?") [VInt 2];
              Filtering.CallGroupBy ["a"%string; "b"%string];
              Filtering.CallHaving (VString "count(*) > ?") [VInt 3];
              Filtering.CallOrderBy ["a"%string];
              Filtering.CallLimit 0; Filtering.CallOffset 7] in
  Filtering.WhereBuilder_ToSql b =
    (" WHERE a = $1 AND b = $2 GROUP BY a, b HAVING count(*) > $3 ORDER BY a LIMIT 0 OFFSET 7"%string,
     [VInt 1; VInt 2; VInt 3], None)
  /\ ReplacePlaceholders Dollar
       " WHERE a = ? AND b = ? GROUP BY a, b HAVING count(*) > ? ORDER BY a LIMIT 0 OFFSET 7"
     = (" WHERE a = $1 AND b = $2 GROUP BY a, b HAVING count(*) > $3 ORDER BY a LIMIT 0 OFFSET 7"%string,
        None).
Proof.
  intros b.
  assert (H : Filtering.WhereBuilder_ToSql b =
    (" WHERE a = $1 AND b = $2 GROUP BY a, b HAVING count(*) > $3 ORDER BY a LIMIT 0 OFFSET 7"%string,
     [VInt 1; VInt 2; VInt 3], None)) by (vm_compute; reflexivity).
  split; [exact H|].
  exact (proj1 (where_render_clause_order b _ _ H)).
Defined.

(** C7: [Limit(n)] and [Offset(n)] store [n] and set the validity flag of
    their slot.  After any chain of setter calls on a fresh WHERE builder,
    the flag of a slot is set exactly when its setter was called; the
    rendered limit clause is " LIMIT n" for the argument [n] of the last
    [Limit] call, zero included, and is empty when [Limit] was never called;
    the same holds for [Offset].  The text handed to the placeholder
    rewriter ends with these two clauses, and so does the text returned by a
    format that runs the rewriter, whatever its emit function. *)
Theorem limit_offset_emitted_iff_set :
  forall (f : PlaceholderFormat) (cs : list Filtering.call),
    let b := Filtering.chain (Filtering.empty f) cs in
    (forall (b0 : Filtering.WhereBuilder) (n : N),
       Filtering.limitValid (Filtering.Limit n b0) = true
       /\ Filtering.limit (Filtering.Limit n b0) = n
       /\ limitClause (Filtering.Limit n b0) = " LIMIT " +:+ FormatUint n
       /\ Filtering.offsetValid (Filtering.Offset n b0) = true
       /\ Filtering.offset (Filtering.Offset n b0) = n
       /\ offsetClause (Filtering.Offset n b0) = " OFFSET " +:+ FormatUint n)
    /\ Filtering.limitValid b = bool_decide (is_Some (Filtering.lastLimit cs))
    /\ Filtering.offsetValid b = bool_decide (is_Some (Filtering.lastOffset cs))
    /\ limitText (Some 0%N) = " LIMIT 0"%string
    /\ offsetText (Some 0%N) = " OFFSET 0"%string
    /\ limitText None = EmptyString
    /\ offsetText None = EmptyString
    /\ (forall sqlStr args,
          Filtering.WhereBuilder_ToSql b = (sqlStr, args, None) ->
          ReplacePlaceholders f
            (whereClause b +:+ groupByClause b +:+ havingClause b +:+
             orderByClause b +:+
             limitText (Filtering.lastLimit cs) +:+
             offsetText (Filtering.lastOffset cs)) = (sqlStr, None))
    /\ (forall (replace : Rewriter.Replacer unit) sqlStr args,
          f = rewriterFormat replace ->
          Filtering.WhereBuilder_ToSql b = (sqlStr, args, None) ->
          exists out,
            ReplacePlaceholders f
              (whereClause b +:+ groupByClause b +:+ havingClause b +:+
               orderByClause b) = (out, None)
            /\ sqlStr = out +:+ limitText (Filtering.lastLimit cs) +:+
                        offsetText (Filtering.lastOffset cs)).
Proof.
  intros f cs b.
  pose proof (chain_limit cs (Filtering.empty f)) as Hl.
  pose proof (chain_offset cs (Filtering.empty f)) as Ho.
  pose proof (chain_placeholderFormat cs (Filtering.empty f)) as Hf.
  fold b in Hl, Ho, Hf. cbn [Filtering.empty Filtering.limitValid
    Filtering.offsetValid Filtering.placeholderFormat] in Hl, Ho, Hf.
  assert (Hl' : match Filtering.lastLimit cs with Some n => Some n | None => None end
                = Filtering.lastLimit cs) by (destruct (Filtering.lastLimit cs); reflexivity).
  assert (Ho' : match Filtering.lastOffset cs with Some n => Some n | None => None end
                = Filtering.lastOffset cs) by (destruct (Filtering.lastOffset cs); reflexivity).
  rewrite Hl' in Hl. rewrite Ho' in Ho. clear Hl' Ho'.
  assert (Htext : spec_text b =
            (whereClause b +:+ groupByClause b +:+ havingClause b +:+ orderByClause b)
            +:+ (limitText (Filtering.lastLimit cs) +:+ offsetText (Filtering.lastOffset cs))).
  { unfold spec_text, limitClause, offsetClause. rewrite Hl, Ho.
    now rewrite !app_assoc_str. }
  split; [intros b0 n; repeat split|].
  repeat split.
  - rewrite <- Hl. destruct (Filtering.limitValid b); reflexivity.
  - rewrite <- Ho. destruct (Filtering.offsetValid b); reflexivity.
  - intros sqlStr args H. apply WhereBuilder_ToSql_ok in H as [H _].
    rewrite Hf, Htext, !app_assoc_str in H. exact H.
  - intros replace sqlStr args -> H. apply WhereBuilder_ToSql_ok in H as [H _].
    rewrite Hf, Htext in H. revert H.
    cbn [ReplacePlaceholders rewriterFormat].
    rewrite replacePlaceholders_plain_suffix by apply plain_limit_offset.
    destruct (Rewriter.replacePlaceholders replace _ tt) as [w' [out [e|]]];
      cbn [snd]; [discriminate|].
    intros [= <-]. exists out. split; reflexivity.
Qed.

Lemma limit_offset_emitted_iff_set_witness :
  Filtering.WhereBuilder_ToSql
    (Filtering.chain (Filtering.empty Dollar)
       [Filtering.CallLimit 5; Filtering.CallWhere (VString "a = ?") [VInt 1];
        Filtering.CallLimit 0])
  = (" WHERE a = $1 LIMIT 0"%string, [VInt 1], None)
  /\ exists out,
       ReplacePlaceholders Dollar " WHERE a = ?" = (out, None)
       /\ " WHERE a = $1 LIMIT 0"%string = out +:+ " LIMIT 0" +:+ EmptyString.
Proof.
  assert (H : Filtering.WhereBuilder_ToSql
    (Filtering.chain (Filtering.empty Dollar)
       [Filtering.CallLimit 5; Filtering.CallWhere (VString "a = ?") [VInt 1];
        Filtering.CallLimit 0])
    = (" WHERE a = $1 LIMIT 0"%string, [VInt 1], None)) by (vm_compute; reflexivity).
  split; [exact H|].
  destruct (limit_offset_emitted_iff_set Dollar
    [Filtering.CallLimit 5; Filtering.CallWhere (VString "a = ?") [VInt 1];
     Filtering.CallLimit 0]) as (_ & _ & _ & _ & _ & _ & _ & _ & Hw).
  exact (Hw Rewriter.mini _ _ eq_refl H).
Defined.

(** C9: [Where(nil)] makes the where-parts slot non-empty although the nil
    predicate renders to no text and no argument, so a successful [ToSql]
    hands the rewriter a text that begins with " WHERE " (and returns a text
    that begins with it under a dialect that appends its tokens).  On a
    builder whose only mutation is [Where(nil)] the text is " WHERE ". *)
Theorem where_nil_emits_keyword :
  forall (b : Filtering.WhereBuilder) (args : list Value),
    let b' := Filtering.Where VNil args b in
    (0 < length (Filtering.whereParts b'))%nat
    /\ ToSql (Filtering.newWherePart VNil args) = (EmptyString, [], None)
    /\ (forall sqlStr a,
          Filtering.WhereBuilder_ToSql b' = (sqlStr, a, None) ->
          exists rest,
            ReplacePlaceholders (Filtering.placeholderFormat b) (" WHERE " +:+ rest)
            = (sqlStr, None))
    /\ (forall (tok : Z -> string) sqlStr a,
          Filtering.placeholderFormat b = rewriterFormat (appending tok) ->
          Filtering.WhereBuilder_ToSql b' = (sqlStr, a, None) ->
          exists rest, sqlStr = " WHERE " +:+ rest)
    /\ (forall f : PlaceholderFormat,
          Filtering.WhereBuilder_ToSql (Filtering.Where VNil [] (Filtering.empty f))
          = (let '(sqlStr, err) := ReplacePlaceholders f " WHERE " in
             (sqlStr, [], err)))
    /\ (forall replace : Rewriter.Replacer unit,
          Filtering.WhereBuilder_ToSql
            (Filtering.Where VNil [] (Filtering.empty (rewriterFormat replace)))
          = (" WHERE "%string, [], None)).
Proof.
  intros b args b'.
  assert (Hne : exists p ps, Filtering.whereParts b' = p :: ps).
  { unfold b'. cbn [Filtering.Where Filtering.whereParts].
    destruct (Filtering.whereParts b); cbn; eauto. }
  assert (Htext : exists rest, spec_text b' = " WHERE " +:+ rest).
  { destruct Hne as (p & ps & Hp). unfold spec_text, whereClause. rewrite Hp.
    eexists. rewrite app_assoc_str. reflexivity. }
  split; [|split; [|split; [|split; [|split]]]].
  - destruct Hne as (p & ps & ->). cbn. lia.
  - reflexivity.
  - intros sqlStr a H. apply WhereBuilder_ToSql_ok in H as [H _].
    destruct Htext as [rest Hrest]. exists rest. rewrite <- Hrest. exact H.
  - intros tok sqlStr a Hf H. apply WhereBuilder_ToSql_ok in H as [H _].
    destruct Htext as [rest Hrest]. rewrite Hrest in H.
    change (Filtering.placeholderFormat b') with (Filtering.placeholderFormat b) in H.
    rewrite Hf, rewriterFormat_appending_prefix in H by reflexivity.
    injection H as <-. eauto.
  - intros f. rewrite WhereBuilder_ToSql_spec. reflexivity.
  - intros replace. rewrite WhereBuilder_ToSql_spec.
    cbn [Filtering.Where Filtering.empty Filtering.whereParts Filtering.havingParts
      Filtering.placeholderFormat app firstError]. unfold partErr. cbn [Filtering.newWherePart ToSql
      Filtering.wherePart_ToSql Filtering.pred snd].
    cbn [ReplacePlaceholders rewriterFormat].
    rewrite replacePlaceholders_plain by reflexivity. reflexivity.
Qed.

Lemma where_nil_emits_keyword_witness :
  Filtering.WhereBuilder_ToSql
    (Filtering.Where VNil []
       (Filtering.Where (VString "a = ?") [VInt 1] (Filtering.empty Dollar)))
  = (" WHERE a = $1"%string, [VInt 1], None)
  /\ exists rest, " WHERE a = $1"%string = " WHERE " +:+ rest.
Proof.
  assert (H : Filtering.WhereBuilder_ToSql
    (Filtering.Where VNil []
       (Filtering.Where (VString "a = ?") [VInt 1] (Filtering.empty Dollar)))
    = (" WHERE a = $1"%string, [VInt 1], None)) by (vm_compute; reflexivity).
  split; [exact H|].
  destruct (where_nil_emits_keyword
    (Filtering.Where (VString "a = ?") [VInt 1] (Filtering.empty Dollar)) [])
    as (_ & _ & _ & Hw & _).
  exact (Hw (fun i => "$" +:+ FormatInt i) _ _ eq_refl H).
Defined.

(** ** The INSERT builder *)

Example scenario_where_limit :
  Filtering.WhereBuilder_ToSql
    (Filtering.chain (Filtering.empty Question)
       [Filtering.CallWhere (VMap {[ "id"%string := VInt 5 ]}) [];
        Filtering.CallLimit 10])
  = (" WHERE id = ? LIMIT 10"%string, [VInt 5], None).
Proof. vm_compute. reflexivity. Qed.

Example scenario_insert :
  Insertion.InsertBuilder_ToSql Insertion.spec_exprs_AppendToSql
    (fun _ w args => (w, (args, None)))
    (Insertion.Values [VString "Ann"; VInt 30]
       (Insertion.Columns ["name"%string; "age"%string]
          (Insertion.Into "users" (Insertion.NewInsertBuilder Question))))
  = ("INSERT INTO users (name,age) VALUES (?,?)"%string,
     [VString "Ann"; VInt 30], None).
Proof. vm_compute. reflexivity. Qed.

Lemma renderRow_error (row : list Value) :
  forall args,
    match rowError row with
    | Some err => Insertion.renderRow row args = inr err
    | None => exists strs args', Insertion.renderRow row args = inl (strs, args')
    end.
Proof.
  induction row as [|val row IH]; intros args; [cbn; eauto|].
  cbn [rowError Insertion.renderRow].
  destruct val as [| | | |e|sql a [err|]|]; try reflexivity;
    match goal with
    | |- context [Insertion.renderRow row ?a] =>
        specialize (IH a); destruct (rowError row);
        [rewrite IH; reflexivity|destruct IH as (strs & args' & ->); eauto]
    end.
Qed.

Lemma renderRows_error (rows : list (list Value)) :
  forall args,
    match rowsError rows with
    | Some err => Insertion.renderRows rows args = inr err
    | None => exists strs args', Insertion.renderRows rows args = inl (strs, args')
    end.
Proof.
  induction rows as [|row rows IH]; intros args; [cbn; eauto|].
  cbn [rowsError Insertion.renderRows].
  pose proof (renderRow_error row args) as Hrow.
  destruct (rowError row) as [err|]; [now rewrite Hrow|].
  destruct Hrow as (strs & args' & ->).
  specialize (IH args'). destruct (rowsError rows) as [err|].
  - now rewrite IH.
  - destruct IH as (strs' & args'' & ->). eauto.
Qed.

Section InsertStages.
Variable exprs_AppendToSql :
  list expr -> Buffer -> string -> list Value -> Buffer * (list Value * option error).
Variable returning_AppendToSql :
  list Sqlizer -> Buffer -> list Value -> Buffer * (list Value * option error).

(** [ToSql] of the INSERT builder, stage by stage. *)
Lemma InsertBuilder_ToSql_stages (b : Insertion.InsertBuilder) :
  Insertion.InsertBuilder_ToSql exprs_AppendToSql returning_AppendToSql b =
  if (String.length (Insertion.into b) =? 0)%nat then
    (EmptyString, [], Some Insertion.MissingTarget)
  else if (length (Insertion.values b) =? 0)%nat && Insertion.isNil (Insertion.iselect b) then
    (EmptyString, [], Some Insertion.MissingRowsOrQuery)
  else
    let '(sql, args) := beforeBody exprs_AppendToSql b in
    match body b sql args with
    | (_, (args, Some err)) => (EmptyString, args, Some err)
    | (sql, (args, None)) =>
        match returningClause returning_AppendToSql b sql args with
        | (_, (args, Some err)) => (EmptyString, args, Some err)
        | (sql, (args, None)) =>
            let '(sql, args) := suffixClause exprs_AppendToSql b sql args in
            let '(sqlStr, err) :=
              ReplacePlaceholders (Insertion.placeholderFormat b) sql in
            (sqlStr, args, err)
        end
    end.
Proof.
  unfold Insertion.InsertBuilder_ToSql, beforeBody, body, returningClause,
    suffixClause.
  destruct (String.length (Insertion.into b) =? 0)%nat; [reflexivity|].
  destruct ((length (Insertion.values b) =? 0)%nat && _); [reflexivity|].
  cbv zeta.
  destruct (0 <? length (Insertion.prefixes b))%nat;
    [destruct (exprs_AppendToSql (Insertion.prefixes b) _ _ _) as [w [a e]]|];
    reflexivity.
Qed.


End InsertStages.

(** C4: [ToSql] of the INSERT builder fails with the missing-target error
    whenever the table is empty, whatever the rest of the state, and with
    the missing-rows-or-query error when the table is set but there is
    neither a row nor a source subquery; both times the text is empty. *)
Theorem insert_validation_errors :
  forall exprs_AppendToSql returning_AppendToSql (b : Insertion.InsertBuilder),
    (Insertion.into b = EmptyString ->
     Insertion.InsertBuilder_ToSql exprs_AppendToSql returning_AppendToSql b =
     (EmptyString, [], Some Insertion.MissingTarget))
    /\ (Insertion.into b <> EmptyString ->
        Insertion.values b = [] -> Insertion.iselect b = None ->
        Insertion.InsertBuilder_ToSql exprs_AppendToSql returning_AppendToSql b =
        (EmptyString, [], Some Insertion.MissingRowsOrQuery)).
Proof.
  intros ea ra b. unfold Insertion.InsertBuilder_ToSql. split.
  - intros ->. reflexivity.
  - intros Hinto -> ->. destruct (Insertion.into b); [congruence|reflexivity].
Qed.

Lemma insert_validation_errors_witness :
  (Insertion.InsertBuilder_ToSql Insertion.spec_exprs_AppendToSql
     (fun _ w args => (w, (args, None)))
     (Insertion.Values [VInt 1] (Insertion.NewInsertBuilder Question))
   = (EmptyString, [], Some (Errorf "insert statements must specify a table")))
  /\ (Insertion.InsertBuilder_ToSql Insertion.spec_exprs_AppendToSql
        (fun _ w args => (w, (args, None)))
        (Insertion.Into "users" (Insertion.NewInsertBuilder Question))
      = (EmptyString, [],
         Some (Errorf "insert statements must have at least one set of values or select clause"))).
Proof.
  split.
  - apply (insert_validation_errors Insertion.spec_exprs_AppendToSql
             (fun _ w args => (w, (args, None)))
             (Insertion.Values [VInt 1] (Insertion.NewInsertBuilder Question))).
    reflexivity.
  - apply (insert_validation_errors Insertion.spec_exprs_AppendToSql
             (fun _ w args => (w, (args, None)))
             (Insertion.Into "users" (Insertion.NewInsertBuilder Question)));
      [discriminate|reflexivity|reflexivity].
Defined.

(** Stepping through an embedded method body: the primitives are unfolded
    and every branch of the body is taken in turn. *)
Ltac run_method :=
  repeat
    (cbv beta iota zeta delta
       [Method.bind Method.ret Method.return_ Method.field Method.assign
        Method.newBuffer Method.write Method.contents Method.onBuffer
        Method.invoke Method.call Method.recv Method.buf];
     cbn [fst snd] in *;
     repeat match goal with
            | H : ?x = _ |- context [match ?x with _ => _ end] => rewrite H
            end;
     try match goal with
         | |- context [match ?x with _ => _ end] =>
             lazymatch x with
             | context [match _ with _ => _ end] => fail
             | _ => destruct x eqn:?
             end
         end).

(** Running the body of [WhereBuilder.ToSql] returns what the functional
    reading of the method computes, and the receiver is afterwards what it
    was: the body only reads its fields. *)
Lemma Method_WhereBuilder_ToSql_run (h : Method.Heap Filtering.WhereBuilder) :
  fst (Method.WhereBuilder_ToSql h) =
    inr (Filtering.WhereBuilder_ToSql (Method.recv h))
  /\ Method.recv (snd (Method.WhereBuilder_ToSql h)) = Method.recv h.
Proof.
  destruct h as [b w0].
  unfold Method.WhereBuilder_ToSql, Filtering.WhereBuilder_ToSql.
  run_method; split; reflexivity.
Qed.

(** Running the bodies of the two helpers of [InsertBuilder.ToSql]: each
    writes to the buffer what its functional reading returns, reports the
    same results, and leaves the receiver as it was. *)
Lemma Method_appendValuesToSQL_run (args : list Value)
    (h : Method.Heap Insertion.InsertBuilder) :
  Method.invoke (R := SqlResult) (Method.appendValuesToSQL args) h =
    (inl (snd (Insertion.appendValuesToSQL (Method.recv h) (Method.buf h) args)),
     {| Method.recv := Method.recv h;
        Method.buf := fst (Insertion.appendValuesToSQL (Method.recv h) (Method.buf h) args) |}).
Proof.
  destruct h as [b w].
  unfold Method.appendValuesToSQL, Insertion.appendValuesToSQL.
  run_method; reflexivity.
Qed.

Lemma Method_appendSelectToSQL_run (args : list Value)
    (h : Method.Heap Insertion.InsertBuilder) :
  Method.invoke (R := SqlResult) (Method.appendSelectToSQL args) h =
    (inl (snd (Insertion.appendSelectToSQL (Method.recv h) (Method.buf h) args)),
     {| Method.recv := Method.recv h;
        Method.buf := fst (Insertion.appendSelectToSQL (Method.recv h) (Method.buf h) args) |}).
Proof.
  destruct h as [b w].
  unfold Method.appendSelectToSQL, Insertion.appendSelectToSQL.
  run_method; reflexivity.
Qed.

(** Running the body of [InsertBuilder.ToSql], whatever the two absent
    collaborators do with the buffer and the arguments they are given. *)
Lemma Method_InsertBuilder_ToSql_run ea ra (h : Method.Heap Insertion.InsertBuilder) :
  fst (Method.InsertBuilder_ToSql ea ra h) =
    inr (Insertion.InsertBuilder_ToSql ea ra (Method.recv h))
  /\ Method.recv (snd (Method.InsertBuilder_ToSql ea ra h)) = Method.recv h.
Proof.
  destruct h as [b w0].
  unfold Method.InsertBuilder_ToSql, Insertion.InsertBuilder_ToSql,
    Method.appendValuesToSQL, Insertion.appendValuesToSQL,
    Method.appendSelectToSQL, Insertion.appendSelectToSQL.
  run_method; split; reflexivity.
Qed.

(** A call of [ToSql] from outside, on either builder. *)
Lemma call_WhereBuilder_ToSql (b : Filtering.WhereBuilder) :
  Method.call Method.WhereBuilder_ToSql b = (b, Filtering.WhereBuilder_ToSql b).
Proof.
  unfold Method.call.
  destruct (Method_WhereBuilder_ToSql_run
              {| Method.recv := b; Method.buf := EmptyString |}) as [Hr Hb].
  destruct (Method.WhereBuilder_ToSql _) as [[r|r] h]; cbn [fst snd Method.recv] in *.
  - discriminate.
  - injection Hr as ->. now rewrite Hb.
Qed.

Lemma call_InsertBuilder_ToSql ea ra (b : Insertion.InsertBuilder) :
  Method.call (Method.InsertBuilder_ToSql ea ra) b =
    (b, Insertion.InsertBuilder_ToSql ea ra b).
Proof.
  unfold Method.call.
  destruct (Method_InsertBuilder_ToSql_run ea ra
              {| Method.recv := b; Method.buf := EmptyString |}) as [Hr Hb].
  destruct (Method.InsertBuilder_ToSql _ _ _) as [[r|r] h]; cbn [fst snd Method.recv] in *.
  - discriminate.
  - injection Hr as ->. now rewrite Hb.
Qed.

(** A setter call, by contrast, leaves the receiver changed. *)
Lemma call_setter (c : Filtering.call) (b : Filtering.WhereBuilder) :
  Method.call (Method.setter c) b = (Filtering.apply b c, tt).
Proof. destruct c; reflexivity. Qed.

(** C8: a call of [ToSql], on the WHERE builder or on the INSERT builder,
    leaves the struct behind its receiver as it found it, and a second call
    with no setter call in between returns the same text, the same
    arguments and the same error as the first.  This is obtained by running
    the bodies of the two methods, which read the fields of the receiver
    and write only to the buffer they allocate.  For the WHERE builder, in
    any sequence of setter calls and renders, the builder left at the end
    is the one the setter calls alone produce, and every render returns
    what [ToSql] computes from the builder as the setter calls before it
    made it: renders leave no trace, wherever they occur. *)
Theorem render_twice_same_result :
  (forall (b b1 b2 : Filtering.WhereBuilder) (r1 r2 : SqlResult),
     Method.call Method.WhereBuilder_ToSql b = (b1, r1) ->
     Method.call Method.WhereBuilder_ToSql b1 = (b2, r2) ->
     b1 = b /\ b2 = b /\ r2 = r1)
  /\ (forall ea ra (b b1 b2 : Insertion.InsertBuilder) (r1 r2 : SqlResult),
        Method.call (Method.InsertBuilder_ToSql ea ra) b = (b1, r1) ->
        Method.call (Method.InsertBuilder_ToSql ea ra) b1 = (b2, r2) ->
        b1 = b /\ b2 = b /\ r2 = r1)
  /\ (forall (b : Filtering.WhereBuilder) (us : list Method.use),
        Method.session b us = (Filtering.chain b (mutations us), renders b us)).
Proof.
  split; [|split].
  - intros b b1 b2 r1 r2 H1 H2.
    rewrite call_WhereBuilder_ToSql in H1. injection H1 as <- <-.
    rewrite call_WhereBuilder_ToSql in H2. injection H2 as <- <-.
    repeat split.
  - intros ea ra b b1 b2 r1 r2 H1 H2.
    rewrite call_InsertBuilder_ToSql in H1. injection H1 as <- <-.
    rewrite call_InsertBuilder_ToSql in H2. injection H2 as <- <-.
    repeat split.
  - intros b us. revert b.
    induction us as [|[c|] us IH]; intros b; cbn [Method.session mutations renders].
    + reflexivity.
    + rewrite call_setter. cbn [fst]. rewrite IH. reflexivity.
    + rewrite call_WhereBuilder_ToSql, IH. reflexivity.
Qed.

Lemma render_twice_same_result_witness :
  let b := Filtering.chain (Filtering.empty Dollar)
             [Filtering.CallWhere (VString "a = ?") [VInt 1];
              Filtering.CallOrderBy ["a"%string];
              Filtering.CallLimit 5] in
  let r : SqlResult := (" WHERE a = $1 ORDER BY a LIMIT 5"%string, [VInt 1], None) in
  Method.call Method.WhereBuilder_ToSql b = (b, r)
  /\ (b = b /\ b = b /\ r = r).
Proof.
  intros b r.
  assert (H : Method.call Method.WhereBuilder_ToSql b = (b, r))
    by (vm_compute; reflexivity).
  split; [exact H|].
  exact (proj1 render_twice_same_result b b b r r H H).
Defined.




(** ** [SetMap] *)

Lemma SetMap_fold (visited : list (string * Value)) :
  forall cols vals,
    fold_left (fun cv kv => (fst cv ++ [fst kv], snd cv ++ [snd kv])) visited (cols, vals)
    = (cols ++ visited.*1, vals ++ visited.*2).
Proof.
  induction visited as [|kv visited IH]; intros cols vals; cbn [fold_left fmap list_fmap].
  - now rewrite !app_nil_r.
  - rewrite IH. cbn [fst snd]. now rewrite <- !app_assoc.
Qed.

(** C5, as stated, fails: two calls of [SetMap] with the same mapping on
    the same builder may leave the columns, and then the text and the
    arguments, in different orders. *)
Lemma SetMap_order_not_fixed :
  let clauses : gmap string Value := {[ "a"%string := VInt 1; "b"%string := VInt 2 ]} in
  let b := Insertion.Into "t" (Insertion.NewInsertBuilder Question) in
  let render := Insertion.InsertBuilder_ToSql Insertion.spec_exprs_AppendToSql
                  (fun _ w args => (w, (args, None))) in
  exists b1 b2,
    Insertion.SetMap clauses b b1 /\ Insertion.SetMap clauses b b2
    /\ Insertion.columns b1 = ["a"%string; "b"%string]
    /\ Insertion.columns b2 = ["b"%string; "a"%string]
    /\ render b1 = ("INSERT INTO t (a,b) VALUES (?,?)"%string, [VInt 1; VInt 2], None)
    /\ render b2 = ("INSERT INTO t (b,a) VALUES (?,?)"%string, [VInt 2; VInt 1], None).
Proof.
  intros clauses b render.
  assert (Hl : map_to_list clauses = [("a"%string, VInt 1); ("b"%string, VInt 2)])
    by (vm_compute; reflexivity).
  exists (Insertion.SetMap_visiting [("a"%string, VInt 1); ("b"%string, VInt 2)] b),
         (Insertion.SetMap_visiting [("b"%string, VInt 2); ("a"%string, VInt 1)] b).
  split; [|split; [|repeat split; vm_compute; reflexivity]].
  - constructor. unfold Insertion.rangeOver. now rewrite Hl.
  - constructor. unfold Insertion.rangeOver. rewrite Hl. apply perm_swap.
Qed.

(** C5, amended: [SetMap] replaces the columns and the rows by the keys of
    the mapping and one row of its values, in the order in which the map
    iteration visits the entries: column and value stay aligned pairwise,
    every entry of the mapping occurs exactly once, the other slots are
    untouched, and at least one outcome exists; the order itself is not
    fixed. *)
Theorem SetMap_aligned_in_iteration_order :
  forall (clauses : gmap string Value) (b : Insertion.InsertBuilder),
    (exists b', Insertion.SetMap clauses b b')
    /\ (forall b', Insertion.SetMap clauses b b' ->
          exists row,
            Insertion.values b' = [row]
            /\ length row = length (Insertion.columns b')
            /\ zip (Insertion.columns b') row ≡ₚ map_to_list clauses
            /\ NoDup (Insertion.columns b')
            /\ (list_to_map (zip (Insertion.columns b') row) : gmap string Value) = clauses
            /\ Insertion.into b' = Insertion.into b
            /\ Insertion.prefixes b' = Insertion.prefixes b
            /\ Insertion.options b' = Insertion.options b
            /\ Insertion.suffixes b' = Insertion.suffixes b
            /\ Insertion.returning b' = Insertion.returning b
            /\ Insertion.iselect b' = Insertion.iselect b
            /\ Insertion.placeholderFormat b' = Insertion.placeholderFormat b).
Proof.
  intros clauses b. split.
  - exists (Insertion.SetMap_visiting (map_to_list clauses) b). constructor.
    unfold Insertion.rangeOver. reflexivity.
  - intros b' [visited Hv]. unfold Insertion.rangeOver in Hv.
    unfold Insertion.SetMap_visiting. rewrite SetMap_fold. cbn [app].
    exists (visited.*2). cbn [Insertion.values Insertion.columns Insertion.into
      Insertion.prefixes Insertion.options Insertion.suffixes Insertion.returning
      Insertion.iselect Insertion.placeholderFormat].
    assert (Hnd : NoDup (visited.*1)).
    { rewrite Hv. apply NoDup_fst_map_to_list. }
    repeat split.
    + now rewrite !length_fmap.
    + now rewrite zip_fst_snd.
    + exact Hnd.
    + rewrite zip_fst_snd. apply map_eq. intros k.
      apply option_eq. intros v.
      rewrite <- elem_of_list_to_map by exact Hnd.
      rewrite Hv. apply elem_of_map_to_list.
Qed.

Lemma SetMap_aligned_in_iteration_order_witness :
  let clauses : gmap string Value := {[ "a"%string := VInt 1; "b"%string := VInt 2 ]} in
  let b := Insertion.Into "t" (Insertion.NewInsertBuilder Question) in
  let b' := Insertion.SetMap_visiting [("b"%string, VInt 2); ("a"%string, VInt 1)] b in
  Insertion.SetMap clauses b b'
  /\ exists row,
       Insertion.values b' = [row]
       /\ length row = length (Insertion.columns b')
       /\ zip (Insertion.columns b') row ≡ₚ map_to_list clauses.
Proof.
  intros clauses b b'.
  assert (Hl : map_to_list clauses = [("a"%string, VInt 1); ("b"%string, VInt 2)])
    by (vm_compute; reflexivity).
  assert (Hs : Insertion.SetMap clauses b b').
  { constructor. unfold Insertion.rangeOver. rewrite Hl. apply perm_swap. }
  split; [exact Hs|].
  destruct (SetMap_aligned_in_iteration_order clauses b) as [_ H].
  destruct (H b' Hs) as (row & H1 & H2 & H3 & _).
  exists row. repeat split; assumption.
Defined.

(** * Further properties of the sources *)

(** ** The placeholder rewriter *)

Lemma countMarkerChars_app (s t : string) :
  countMarkerChars (s +:+ t) = (countMarkerChars s + countMarkerChars t)%nat.
Proof.
  induction s as [|c s IH]; [reflexivity|].
  rewrite app_cons. cbn [countMarkerChars]. rewrite IH. lia.
Qed.

Lemma plain_countMarkerChars (s : string) : plain s <-> countMarkerChars s = 0%nat.
Proof.
  induction s as [|c s IH]; [split; reflexivity|].
  rewrite plain_cons, IH. cbn [countMarkerChars].
  destruct (Ascii.eqb c "?"); split; try lia; try tauto.
Qed.

Lemma escape_plain (s : string) : countMarkerChars s = 0%nat -> escape s = s.
Proof.
  induction s as [|c s IH]; [reflexivity|]. cbn [countMarkerChars escape].
  destruct (Ascii.eqb c "?"); [discriminate|]. intros H. now rewrite IH.
Qed.

(** The scan of an escaped text meets no unescaped marker: the text comes
    back, whatever the emit function. *)
Lemma spec_emit_escape {W : Type} (replace : Rewriter.Replacer W) (s : string) :
  forall w buf i,
    Rewriter.spec_emit replace w buf i (Rewriter.spec_scan (escape s)) =
    (w, (buf +:+ s, None)).
Proof.
  induction s as [|c s IH]; intros w buf i.
  - cbn. now rewrite app_empty_r.
  - cbn [escape]. destruct (Ascii.eqb_spec c "?") as [->|Hc].
    + rewrite spec_scan_marker, Ascii.eqb_refl. cbn [Rewriter.spec_emit].
      rewrite IH, app_assoc_str. reflexivity.
    + apply Ascii.eqb_neq in Hc. rewrite (spec_scan_lit _ _ Hc).
      cbn [Rewriter.spec_emit]. rewrite IH, app_assoc_str. reflexivity.
Qed.

Lemma replacePlaceholders_escape {W : Type} (replace : Rewriter.Replacer W)
    (s : string) (w : W) :
  Rewriter.replacePlaceholders replace (escape s) w = (w, (s, None)).
Proof.
  unfold Rewriter.replacePlaceholders.
  now rewrite replaceLoop_spec_emit, spec_emit_escape.
Qed.

(** X1: a text that holds no marker character is returned as it is, with no
    error, and the emit function is not called, even one that would fail. *)
Theorem rewrite_without_marker_is_identity :
  forall (W : Type) (replace : Rewriter.Replacer W) (w : W) (sql : string),
    countMarkerChars sql = 0%nat ->
    Rewriter.replacePlaceholders (Rewriter.logged replace) sql (w, [])
    = ((w, []), (sql, None)).
Proof.
  intros W replace w sql H.
  rewrite <- (escape_plain sql H) at 1. apply replacePlaceholders_escape.
Qed.

Lemma rewrite_without_marker_is_identity_witness :
  Rewriter.replacePlaceholders
    (Rewriter.logged (fun (w : unit) buf _ => (w, buf, Some (Errorf "boom"))))
    "SELECT * FROM t" (tt, [])
  = ((tt, []), ("SELECT * FROM t"%string, None)).
Proof.
  apply (rewrite_without_marker_is_identity unit
           (fun w buf _ => (w, buf, Some (Errorf "boom"))) tt "SELECT * FROM t").
  reflexivity.
Defined.

(** X2: round trip of the escape.  Doubling every marker character of any
    text and rewriting the result gives the text back, with no error and no
    call of the emit function. *)
Theorem escape_then_rewrite_round_trip :
  forall (W : Type) (replace : Rewriter.Replacer W) (w : W) (s : string),
    Rewriter.replacePlaceholders (Rewriter.logged replace) (escape s) (w, [])
    = ((w, []), (s, None))
    /\ Rewriter.replacePlaceholders replace (escape s) w = (w, (s, None)).
Proof. intros W replace w s. split; apply replacePlaceholders_escape. Qed.

(** X3: a single unescaped marker between two marker-free texts.  The emit
    function is called once, with index 1 and a buffer that holds exactly
    the text before the marker; what it leaves in the buffer, followed by
    the text after the marker, is the result; its error ends the run with
    the empty string.  Quotes around the marker make no difference. *)
Theorem single_marker_emit_sees_prefix :
  forall (W : Type) (replace : Rewriter.Replacer W) (w : W) (pre post : string),
    countMarkerChars pre = 0%nat ->
    countMarkerChars post = 0%nat ->
    Rewriter.replacePlaceholders replace (pre +:+ String "?" post) w =
    match replace w pre 1 with
    | (w', _, Some err) => (w', (EmptyString, Some err))
    | (w', buf', None) => (w', (buf' +:+ post, None))
    end.
Proof.
  intros W replace w pre post Hpre Hpost.
  apply plain_countMarkerChars in Hpre. apply plain_countMarkerChars in Hpost.
  unfold Rewriter.replacePlaceholders.
  rewrite replaceLoop_spec_emit, (spec_scan_plain_prefix _ _ Hpre), spec_emit_lits.
  change (String "?" post) with ("?" +:+ post).
  rewrite (spec_scan_plain_suffix _ _ Hpost).
  change (Rewriter.spec_scan "?") with [Rewriter.Marker].
  cbn [app Rewriter.spec_emit]. rewrite app_empty_l. change (0 + 1) with 1.
  destruct (replace w pre 1) as [[w' buf'] [e|]]; [reflexivity|].
  rewrite <- (app_nil_r (Rewriter.Lit <$> _)), spec_emit_lits. reflexivity.
Qed.

Lemma single_marker_emit_sees_prefix_witness :
  Rewriter.replacePlaceholders Rewriter.mini "name = '?' LIMIT 1" tt
  = (tt, ("name = '$1' LIMIT 1"%string, None)).
Proof.
  apply (single_marker_emit_sees_prefix unit Rewriter.mini tt "name = '" "' LIMIT 1");
    reflexivity.
Defined.

(** Decimal numerals of [fmt]'s [%d] hold no marker. *)
Lemma countMarkerChars_FormatInt (i : Z) : countMarkerChars (FormatInt i) = 0%nat.
Proof.
  apply plain_countMarkerChars. unfold FormatInt, NilZero.string_of_int.
  destruct (Z.to_int i) as [d|d].
  - unfold NilZero.string_of_uint.
    destruct d; try apply plain_string_of_uint; reflexivity.
  - apply plain_cons. split; [reflexivity|]. unfold NilZero.string_of_uint.
    destruct d; try apply plain_string_of_uint; reflexivity.
Qed.

Lemma countMarkerChars_scan (s : string) :
  countMarkerChars s =
  (Rewriter.count_markers (Rewriter.spec_scan s) +
   2 * count_pairs (Rewriter.spec_scan s))%nat.
Proof.
  remember (String.length s) as n eqn:Hn. revert s Hn.
  induction n as [n IH] using lt_wf_ind. intros [|c s] ->; [reflexivity|].
  destruct (Ascii.eqb_spec c "?") as [->|Hc].
  - destruct s as [|c' s]; [reflexivity|].
    rewrite spec_scan_marker.
    change (countMarkerChars (String "?" (String c' s)))
      with (S (countMarkerChars (String c' s))).
    destruct (Ascii.eqb c' "?") eqn:Hc'.
    + pose proof (IH (String.length s) ltac:(simpl; lia) s eq_refl) as H.
      cbn [Rewriter.count_markers count_pairs countMarkerChars].
      rewrite Hc'. lia.
    + pose proof (IH (String.length (String c' s)) ltac:(simpl; lia) _ eq_refl) as H.
      cbn [Rewriter.count_markers count_pairs]. lia.
  - apply Ascii.eqb_neq in Hc. rewrite (spec_scan_lit _ _ Hc).
    pose proof (IH (String.length s) ltac:(simpl; lia) s eq_refl) as H.
    cbn [countMarkerChars Rewriter.count_markers count_pairs]. rewrite Hc. lia.
Qed.

(** A scanned literal character is never a marker. *)
Lemma spec_scan_lits_ok (s : string) :
  Forall (fun t => match t with
                   | Rewriter.Lit c => Ascii.eqb c "?" = false
                   | _ => True
                   end) (Rewriter.spec_scan s).
Proof.
  remember (String.length s) as n eqn:Hn. revert s Hn.
  induction n as [n IH] using lt_wf_ind. intros [|c s] ->; [constructor|].
  destruct (Ascii.eqb_spec c "?") as [->|Hc].
  - destruct s as [|c' s]; [repeat constructor|].
    rewrite spec_scan_marker. destruct (Ascii.eqb c' "?"); constructor; try exact I.
    + apply (IH (String.length s)); [simpl; lia|reflexivity].
    + apply (IH (String.length (String c' s))); [simpl; lia|reflexivity].
  - apply Ascii.eqb_neq in Hc. rewrite (spec_scan_lit _ _ Hc).
    constructor; [exact Hc|].
    apply (IH (String.length s)); [simpl; lia|reflexivity].
Qed.

Lemma countMarkerChars_render (tok : Z -> string) ts :
  (forall i, countMarkerChars (tok i) = 0%nat) ->
  Forall (fun t => match t with
                   | Rewriter.Lit c => Ascii.eqb c "?" = false
                   | _ => True
                   end) ts ->
  forall i, countMarkerChars (spec_render tok i ts) = count_pairs ts.
Proof.
  intros Htok Hts. induction Hts as [|[c| |] ts Hc _ IH]; intros i;
    cbn [spec_render count_pairs countMarkerChars].
  - reflexivity.
  - rewrite Hc, IH. reflexivity.
  - rewrite Ascii.eqb_refl, IH. reflexivity.
  - rewrite countMarkerChars_app, Htok, IH. reflexivity.
Qed.

(** X4: with [mini] the rewriter never fails, and every marker character of
    its output comes from an escaped pair: the input holds two marker
    characters for each one of the output, plus its unescaped markers. *)
Theorem mini_output_markers_are_escaped_pairs :
  forall sql : string,
    exists out,
      Rewriter.replacePlaceholders Rewriter.mini sql tt = (tt, (out, None))
      /\ (2 * countMarkerChars out + Rewriter.markers sql = countMarkerChars sql)%nat.
Proof.
  intros sql. unfold Rewriter.replacePlaceholders.
  rewrite replaceLoop_spec_emit.
  change Rewriter.mini with (appending (fun i => "$" +:+ FormatInt i)).
  rewrite spec_emit_appending, app_empty_l. eexists. split; [reflexivity|].
  rewrite countMarkerChars_render.
  - rewrite (countMarkerChars_scan sql). unfold Rewriter.markers. lia.
  - intros i. rewrite countMarkerChars_app, countMarkerChars_FormatInt. reflexivity.
  - apply spec_scan_lits_ok.
Qed.

(** A cut that does not fall before a marker character splits the scan. *)
Lemma spec_scan_app_safe (s t : string) :
  startsWithMarker t = false ->
  Rewriter.spec_scan (s +:+ t) = Rewriter.spec_scan s ++ Rewriter.spec_scan t.
Proof.
  intros Ht. remember (String.length s) as n eqn:Hn. revert s Hn.
  induction n as [n IH] using lt_wf_ind. intros [|c s] ->; [reflexivity|].
  rewrite app_cons. destruct (Ascii.eqb_spec c "?") as [->|Hc].
  - destruct s as [|c' s].
    + rewrite app_empty_l. change (Rewriter.spec_scan "?") with [Rewriter.Marker].
      destruct t as [|c' t]; [reflexivity|]. cbn [startsWithMarker] in Ht.
      rewrite spec_scan_marker, Ht. reflexivity.
    + rewrite app_cons, !spec_scan_marker.
      destruct (Ascii.eqb c' "?"); cbn [app]; f_equal.
      * apply (IH (String.length s)); [simpl; lia|reflexivity].
      * rewrite <- app_cons.
        apply (IH (String.length (String c' s))); [simpl; lia|reflexivity].
  - apply Ascii.eqb_neq in Hc. rewrite !(spec_scan_lit _ _ Hc). cbn [app]. f_equal.
    apply (IH (String.length s)); [simpl; lia|reflexivity].
Qed.

Lemma spec_render_app (tok : Z -> string) ts1 ts2 :
  forall i,
    spec_render tok i (ts1 ++ ts2) =
    spec_render tok i ts1 +:+
    spec_render tok (i + Z.of_nat (Rewriter.count_markers ts1)) ts2.
Proof.
  induction ts1 as [|[c| |] ts1 IH]; intros i;
    cbn [app spec_render Rewriter.count_markers].
  - now rewrite Z.add_0_r.
  - now rewrite IH.
  - now rewrite IH.
  - rewrite IH, app_assoc_str. do 3 f_equal. lia.
Qed.

Lemma spec_render_shift (tok : Z -> string) (k : Z) ts :
  forall i,
    spec_render tok (k + i) ts = spec_render (fun j => tok (k + j)) i ts.
Proof.
  induction ts as [|[c| |] ts IH]; intros i; cbn [spec_render].
  - reflexivity.
  - now rewrite IH.
  - now rewrite IH.
  - rewrite <- IH, Z.add_assoc. reflexivity.
Qed.

Lemma rewritten_render (tok : Z -> string) (s : string) :
  rewritten tok s = spec_render tok 0 (Rewriter.spec_scan s).
Proof.
  unfold rewritten, Rewriter.replacePlaceholders.
  now rewrite replaceLoop_spec_emit, spec_emit_appending.
Qed.

(** X5: rewriting composes over a concatenation whose second text does not
    begin with a marker character.  The second text is rewritten by the loop
    started on the output of the first, its markers numbered after those of
    the first; under a dialect that appends its tokens the output is the
    concatenation of the two outputs, with the indices of the second
    shifted by the number of markers of the first. *)
Theorem rewrite_of_concatenation :
  forall (W : Type) (replace : Rewriter.Replacer W) (w : W) (s t : string),
    startsWithMarker t = false ->
    Rewriter.replacePlaceholders replace (s +:+ t) w =
      match Rewriter.replacePlaceholders replace s w with
      | (w', (out, None)) =>
          Rewriter.replaceLoop replace w' out (Z.of_nat (Rewriter.markers s)) t
      | r => r
      end
    /\ (forall tok : Z -> string,
          rewritten tok (s +:+ t) =
          rewritten tok s +:+
          rewritten (fun i => tok (Z.of_nat (Rewriter.markers s) + i)) t).
Proof.
  intros W replace w s t Ht. split.
  - unfold Rewriter.replacePlaceholders.
    rewrite !replaceLoop_spec_emit, (spec_scan_app_safe _ _ Ht), spec_emit_app.
    destruct (Rewriter.spec_emit replace w EmptyString 0 (Rewriter.spec_scan s))
      as [w' [out [e|]]]; [reflexivity|].
    now rewrite replaceLoop_spec_emit.
  - intros tok. rewrite !rewritten_render, (spec_scan_app_safe _ _ Ht), spec_render_app.
    f_equal. rewrite Z.add_0_l.
    rewrite <- (Z.add_0_r (Z.of_nat (Rewriter.count_markers (Rewriter.spec_scan s)))).
    apply spec_render_shift.
Qed.

Lemma rewrite_of_concatenation_witness :
  rewritten (fun i => "$" +:+ FormatInt i) ("a = ? AND b = ??" +:+ " OR c = ?")
  = rewritten (fun i => "$" +:+ FormatInt i) "a = ? AND b = ??" +:+
    rewritten (fun i => "$" +:+ FormatInt (Z.of_nat (Rewriter.markers "a = ? AND b = ??") + i))
      " OR c = ?".
Proof.
  apply (rewrite_of_concatenation unit Rewriter.mini tt "a = ? AND b = ??" " OR c = ?").
  reflexivity.
Defined.

(** What [main] of the demo prints. *)
Example main_prints :
  main_printed =
  "SELECT uuid, " +:+ dquote +:+ "data" +:+ dquote +:+
  " #> '{tags}' AS tags FROM nodes WHERE  " +:+ dquote +:+ "data" +:+ dquote +:+
  " -> 'tags' ?| array['$1'] AND enabled = $2" +:+
  String (Ascii.ascii_of_nat 10) EmptyString.
Proof. vm_compute. reflexivity. Qed.

(** ** The WHERE builder *)

Lemma chain_cons (b : Filtering.WhereBuilder) (c : Filtering.call) cs :
  Filtering.chain b (c :: cs) = Filtering.chain (Filtering.apply b c) cs.
Proof. reflexivity. Qed.

(** X6: a chain of setter calls only appends to the four list slots: each
    slot holds what it held before, followed by the parts or names of the
    calls for that slot, in call order; nothing is dropped, replaced or
    reordered, and the format is kept. *)
Theorem chain_appends_in_call_order :
  forall (cs : list Filtering.call) (b : Filtering.WhereBuilder),
    Filtering.whereParts (Filtering.chain b cs) = Filtering.whereParts b ++ whereCalls cs
    /\ Filtering.groupBys (Filtering.chain b cs) = Filtering.groupBys b ++ groupByCalls cs
    /\ Filtering.havingParts (Filtering.chain b cs) = Filtering.havingParts b ++ havingCalls cs
    /\ Filtering.orderBys (Filtering.chain b cs) = Filtering.orderBys b ++ orderByCalls cs
    /\ Filtering.placeholderFormat (Filtering.chain b cs) = Filtering.placeholderFormat b.
Proof.
  induction cs as [|c cs IH]; intros b.
  - unfold whereCalls, groupByCalls, havingCalls, orderByCalls. cbn.
    now rewrite !app_nil_r.
  - rewrite chain_cons. destruct (IH (Filtering.apply b c)) as (Hw & Hg & Hh & Ho & Hf).
    rewrite Hw, Hg, Hh, Ho, Hf.
    unfold whereCalls, groupByCalls, havingCalls, orderByCalls.
    cbn [mbind list_bind].
    destruct c; cbn [Filtering.apply Filtering.Where Filtering.GroupBy
      Filtering.Having Filtering.OrderBy Filtering.Limit Filtering.Offset
      Filtering.whereParts Filtering.groupBys Filtering.havingParts
      Filtering.orderBys Filtering.placeholderFormat app];
      rewrite <- ?app_assoc; repeat split; reflexivity.
Qed.

Lemma firstError_app (ps qs : list Sqlizer) :
  firstError (ps ++ qs) =
  match firstError ps with
  | Some err => Some err
  | None => firstError qs
  end.
Proof.
  induction ps as [|p ps IH]; [reflexivity|]. cbn [app firstError].
  destruct (partErr p); [reflexivity|apply IH].
Qed.

(** X7: [Where] accepts a predicate of an unsupported dynamic type (it does
    not panic); the failure shows when the builder is rendered.  If the
    parts added before render, [ToSql] returns the error "expected
    string-keyed map or string, not T" for the type T of the predicate, with
    an empty text and no argument, whatever the other slots and the
    format. *)
Theorem where_unsupported_predicate_fails_at_render :
  forall (b : Filtering.WhereBuilder) (pred : Value) (args : list Value),
    unsupported pred = true ->
    firstError (Filtering.whereParts b) = None ->
    Filtering.WhereBuilder_ToSql (Filtering.Where pred args b) =
    (EmptyString, [],
     Some (Errorf ("expected string-keyed map or string, not " +:+ typeName pred))).
Proof.
  intros b pred args Hu Hb. rewrite WhereBuilder_ToSql_spec.
  cbn [Filtering.Where Filtering.whereParts]. rewrite firstError_app, Hb.
  destruct pred; try discriminate; reflexivity.
Qed.

Lemma where_unsupported_predicate_fails_at_render_witness :
  Filtering.WhereBuilder_ToSql
    (Filtering.Where (VInt 7) []
       (Filtering.Where (VString "a = ?") [VInt 1] (Filtering.empty Dollar)))
  = (EmptyString, [],
     Some (Errorf "expected string-keyed map or string, not int")).
Proof.
  apply (where_unsupported_predicate_fails_at_render
           (Filtering.Where (VString "a = ?") [VInt 1] (Filtering.empty Dollar))
           (VInt 7) []); reflexivity.
Defined.

Lemma spec_join_single (sep : string) (p : Sqlizer) :
  spec_join sep [p] = partText p.
Proof.
  unfold spec_join, nonEmptyTexts. cbn [fmap list_fmap]. rewrite filter_cons.
  destruct (decide (partText p <> EmptyString)) as [_|Heq]; [reflexivity|].
  rewrite filter_nil. cbn.
  destruct (partText p); [reflexivity|exfalso; apply Heq; discriminate].
Qed.

(** X8: a raw condition is rendered verbatim after " WHERE " and its
    arguments are returned as given.  The builder relates them in no way:
    the number of arguments is not compared with the number of markers of
    the condition, and a mismatch is no error. *)
Theorem where_raw_condition_verbatim_unchecked :
  forall (f : PlaceholderFormat) (cond : string) (args : list Value),
    Filtering.WhereBuilder_ToSql
      (Filtering.Where (VString cond) args (Filtering.empty f))
    = (let '(sqlStr, err) := ReplacePlaceholders f (" WHERE " +:+ cond) in
       (sqlStr, args, err))
    /\ (forall tok : Z -> string,
          Filtering.WhereBuilder_ToSql
            (Filtering.Where (VString cond) args
               (Filtering.empty (rewriterFormat (appending tok))))
          = (" WHERE " +:+ rewritten tok cond, args, None)).
Proof.
  intros f cond args.
  assert (H : forall g,
    Filtering.WhereBuilder_ToSql
      (Filtering.Where (VString cond) args (Filtering.empty g))
    = (let '(sqlStr, err) := ReplacePlaceholders g (" WHERE " +:+ cond) in
       (sqlStr, args, err))).
  { intros g. rewrite WhereBuilder_ToSql_spec.
    cbn [Filtering.Where Filtering.empty Filtering.whereParts Filtering.havingParts
      Filtering.placeholderFormat app firstError allArgs mbind list_bind].
    unfold partErr, partArgs, spec_text, whereClause, groupByClause, havingClause,
      orderByClause, limitClause, offsetClause.
    cbn [Filtering.Where Filtering.empty Filtering.whereParts Filtering.havingParts
      Filtering.groupBys Filtering.orderBys Filtering.limitValid Filtering.offsetValid
      Filtering.placeholderFormat app limitText offsetText].
    rewrite spec_join_single. unfold partText.
    cbn [Filtering.newWherePart ToSql Filtering.wherePart_ToSql Filtering.pred
      Filtering.args fst snd].
    rewrite !app_empty_r, !app_nil_r. reflexivity. }
  split; [apply H|].
  intros tok. rewrite H, rewriterFormat_appending_prefix by reflexivity.
  now rewrite rewritten_render.
Qed.

(** X9: how the setters compose.  Calls that write different slots commute;
    two [GroupBy] (or [OrderBy]) calls amount to one call with the
    concatenated names; of two [Limit] (or [Offset]) calls the last wins. *)
Theorem setters_compose :
  (forall (b : Filtering.WhereBuilder) (c1 c2 : Filtering.call),
     slot c1 <> slot c2 ->
     Filtering.apply (Filtering.apply b c1) c2 =
     Filtering.apply (Filtering.apply b c2) c1)
  /\ (forall b n1 n2,
        Filtering.GroupBy n2 (Filtering.GroupBy n1 b) = Filtering.GroupBy (n1 ++ n2) b)
  /\ (forall b n1 n2,
        Filtering.OrderBy n2 (Filtering.OrderBy n1 b) = Filtering.OrderBy (n1 ++ n2) b)
  /\ (forall b n m, Filtering.Limit m (Filtering.Limit n b) = Filtering.Limit m b)
  /\ (forall b n m, Filtering.Offset m (Filtering.Offset n b) = Filtering.Offset m b).
Proof.
  split; [|repeat split].
  - intros b c1 c2 Hs. destruct c1, c2; try reflexivity; exfalso; apply Hs; reflexivity.
  - intros b n1 n2. unfold Filtering.GroupBy. cbn. now rewrite app_assoc.
  - intros b n1 n2. unfold Filtering.OrderBy. cbn. now rewrite app_assoc.
Qed.

Lemma setters_compose_witness :
  Filtering.apply (Filtering.apply (Filtering.empty Question) (Filtering.CallLimit 3))
    (Filtering.CallWhere (VString "a = ?") [VInt 1])
  = Filtering.apply
      (Filtering.apply (Filtering.empty Question)
         (Filtering.CallWhere (VString "a = ?") [VInt 1]))
      (Filtering.CallLimit 3).
Proof.
  apply (proj1 setters_compose (Filtering.empty Question) (Filtering.CallLimit 3)
           (Filtering.CallWhere (VString "a = ?") [VInt 1])).
  discriminate.
Defined.

(** ** The INSERT builder *)

Lemma renderRow_ok (row : list Value) :
  forall args,
    rowError row = None ->
    Insertion.renderRow row args = inl (valueText <$> row, args ++ (row ≫= valueArgs)).
Proof.
  induction row as [|val row IH]; intros args Hrow.
  - cbn. now rewrite app_nil_r.
  - cbn [Insertion.renderRow fmap list_fmap mbind list_bind].
    destruct val as [| | | |e|sql a [err|]|]; cbn [rowError] in Hrow;
      try discriminate; cbn [valueText valueArgs];
      rewrite (IH _ Hrow), <- app_assoc; reflexivity.
Qed.

Lemma renderRows_ok (rows : list (list Value)) :
  forall args,
    rowsError rows = None ->
    Insertion.renderRows rows args =
    inl (rowText <$> rows, args ++ (rows ≫= fun row => row ≫= valueArgs)).
Proof.
  induction rows as [|row rows IH]; intros args Hrows.
  - cbn. now rewrite app_nil_r.
  - cbn [rowsError] in Hrows. destruct (rowError row) eqn:Hrow; [discriminate|].
    cbn [Insertion.renderRows fmap list_fmap mbind list_bind].
    rewrite (renderRow_ok _ _ Hrow), (IH _ Hrows), <- app_assoc. reflexivity.
Qed.

(** X10: the VALUES clause.  With no row, [appendValuesToSQL] writes
    nothing and fails; otherwise it writes "VALUES " and then fails with the
    error of the first value, in row-major order, whose own render fails,
    returning nil arguments; when every value renders it writes the rows as
    "(v1,...,vn)" joined with ",", a bound value being one marker, and
    appends the arguments of the values in row-major order. *)
Theorem values_clause_rendering :
  forall (b : Insertion.InsertBuilder) (w : Buffer) (args : list Value),
    match Insertion.values b, rowsError (Insertion.values b) with
    | [], _ =>
        Insertion.appendValuesToSQL b w args =
        (w, (args, Some (Errorf "values for insert statements are not set")))
    | _ :: _, Some err =>
        Insertion.appendValuesToSQL b w args = (w +:+ "VALUES ", ([], Some err))
    | rows, None =>
        Insertion.appendValuesToSQL b w args =
        (w +:+ "VALUES " +:+ String.concat "," (rowText <$> rows),
         (args ++ (rows ≫= fun row => row ≫= valueArgs), None))
    end.
Proof.
  intros b w args. unfold Insertion.appendValuesToSQL, WriteString.
  destruct (Insertion.values b) as [|row rows] eqn:Hv; [reflexivity|].
  cbn [length Nat.eqb].
  pose proof (renderRows_error (row :: rows) args) as He.
  destruct (rowsError (row :: rows)) as [err|] eqn:Hr.
  - now rewrite He.
  - rewrite (renderRows_ok _ _ Hr), app_assoc_str. reflexivity.
Qed.

Lemma count_markers_app ts1 ts2 :
  Rewriter.count_markers (ts1 ++ ts2) =
  (Rewriter.count_markers ts1 + Rewriter.count_markers ts2)%nat.
Proof.
  induction ts1 as [|[c| |] ts1 IH]; cbn [app Rewriter.count_markers]; lia.
Qed.

Lemma markers_app_safe (s t : string) :
  startsWithMarker t = false ->
  Rewriter.markers (s +:+ t) = (Rewriter.markers s + Rewriter.markers t)%nat.
Proof.
  intros Ht. unfold Rewriter.markers.
  now rewrite (spec_scan_app_safe _ _ Ht), count_markers_app.
Qed.

Lemma markers_plain (s : string) : countMarkerChars s = 0%nat -> Rewriter.markers s = 0%nat.
Proof.
  intros H. pose proof (countMarkerChars_scan s) as Hs. unfold Rewriter.markers. lia.
Qed.

Lemma markers_plain_prefix (pre s : string) :
  countMarkerChars pre = 0%nat -> Rewriter.markers (pre +:+ s) = Rewriter.markers s.
Proof.
  intros H. apply plain_countMarkerChars in H. unfold Rewriter.markers.
  rewrite (spec_scan_plain_prefix _ _ H), count_markers_app.
  assert (Hl : forall l, Rewriter.count_markers (Rewriter.Lit <$> l) = 0%nat)
    by (induction l; [reflexivity|assumption]).
  now rewrite Hl.
Qed.

(** The markers of one row of bound values, closed by its parenthesis. *)
Lemma markers_bound_values (row : list Value) :
  Forall (fun v => boundValue v = true) row ->
  Rewriter.markers (String.concat "," (valueText <$> row) +:+ ")") = length row.
Proof.
  induction 1 as [|v row Hv Hrow IH]; [reflexivity|].
  assert (Ev : valueText v = "?"%string) by (destruct v; try discriminate; reflexivity).
  cbn [fmap list_fmap length]. rewrite Ev.
  destruct row as [|v' row].
  - reflexivity.
  - change (String.concat "," ("?"%string :: (valueText <$> (v' :: row))))
      with ("?" +:+ "," +:+ String.concat "," (valueText <$> (v' :: row))).
    rewrite !app_assoc_str.
    change ("?" +:+ "," +:+ ?x) with (String "?" (String "," x)).
    unfold Rewriter.markers in *.
    rewrite spec_scan_marker. change (Ascii.eqb "," "?") with false.
    rewrite spec_scan_lit by reflexivity.
    cbn [Rewriter.count_markers]. now rewrite IH.
Qed.

Lemma markers_rowText (row : list Value) :
  Forall (fun v => boundValue v = true) row ->
  Rewriter.markers (rowText row) = length row.
Proof.
  intros H. unfold rowText.
  rewrite (markers_plain_prefix "(") by reflexivity.
  now apply markers_bound_values.
Qed.

Lemma markers_rows (rows : list (list Value)) :
  Forall (Forall (fun v => boundValue v = true)) rows ->
  Rewriter.markers (String.concat "," (rowText <$> rows)) = length (concat rows).
Proof.
  induction 1 as [|row rows Hrow Hrows IH]; [reflexivity|].
  cbn [fmap list_fmap concat]. rewrite length_app.
  destruct rows as [|row' rows].
  - cbn [fmap list_fmap String.concat concat length]. rewrite Nat.add_0_r.
    now apply markers_rowText.
  - change (String.concat "," (rowText row :: (rowText <$> (row' :: rows))))
      with (rowText row +:+ "," +:+ String.concat "," (rowText <$> (row' :: rows))).
    rewrite markers_app_safe by reflexivity.
    rewrite (markers_plain_prefix ",") by reflexivity.
    rewrite IH, (markers_rowText _ Hrow). reflexivity.
Qed.

Lemma rowsError_bound (rows : list (list Value)) :
  Forall (Forall (fun v => boundValue v = true)) rows -> rowsError rows = None.
Proof.
  induction 1 as [|row rows Hrow _ IH]; [reflexivity|]. cbn [rowsError].
  assert (Hr : rowError row = None).
  { induction Hrow as [|v row Hv _ IHr]; [reflexivity|].
    destruct v as [| | | |e|s a o|]; try discriminate; exact IHr. }
  now rewrite Hr.
Qed.

Lemma valueArgs_bound (rows : list (list Value)) :
  Forall (Forall (fun v => boundValue v = true)) rows ->
  (rows ≫= fun row => row ≫= valueArgs) = concat rows.
Proof.
  induction 1 as [|row rows Hrow _ IH]; [reflexivity|].
  cbn [mbind list_bind concat]. f_equal; [|exact IH].
  induction Hrow as [|v row Hv _ IHr]; [reflexivity|].
  cbn [mbind list_bind]. rewrite IHr.
  destruct v; try discriminate; reflexivity.
Qed.

Lemma concat_plain (sep : string) (names : list string) :
  countMarkerChars sep = 0%nat ->
  Forall (fun s => countMarkerChars s = 0%nat) names ->
  countMarkerChars (String.concat sep names) = 0%nat.
Proof.
  intros Hsep. induction 1 as [|s names Hs Hnames IH]; [reflexivity|].
  destruct names as [|s' names]; [exact Hs|].
  change (String.concat sep (s :: s' :: names))
    with (s +:+ sep +:+ String.concat sep (s' :: names)).
  rewrite !countMarkerChars_app. lia.
Qed.

(** X11: markers and arguments of a plain INSERT agree.  For a builder with
    a table, at least one row, only bound values in its rows, no prefix,
    suffix, RETURNING part or source subquery, and no marker character in
    its table, option and column names, [ToSql] hands the placeholder
    rewriter the text "INSERT [options ]INTO table [(columns) ]VALUES rows"
    and returns the values in row-major order as arguments; the text holds
    exactly as many unescaped markers as there are arguments.  The number of
    columns is not compared with the length of the rows. *)
Theorem insert_bound_values_markers_match_args :
  forall exprs_AppendToSql returning_AppendToSql (b : Insertion.InsertBuilder),
    Insertion.prefixes b = [] -> Insertion.suffixes b = [] ->
    Insertion.returning b = [] -> Insertion.iselect b = None ->
    Insertion.values b <> [] ->
    Forall (Forall (fun v => boundValue v = true)) (Insertion.values b) ->
    Insertion.into b <> EmptyString ->
    countMarkerChars (Insertion.into b) = 0%nat ->
    Forall (fun s => countMarkerChars s = 0%nat) (Insertion.options b) ->
    Forall (fun s => countMarkerChars s = 0%nat) (Insertion.columns b) ->
    let text :=
      "INSERT " +:+
      (match Insertion.options b with
       | [] => EmptyString
       | opts => String.concat " " opts +:+ " "
       end) +:+
      "INTO " +:+ Insertion.into b +:+ " " +:+
      (match Insertion.columns b with
       | [] => EmptyString
       | cols => "(" +:+ String.concat "," cols +:+ ") "
       end) +:+
      "VALUES " +:+ String.concat "," (rowText <$> Insertion.values b) in
    Insertion.InsertBuilder_ToSql exprs_AppendToSql returning_AppendToSql b =
      (let '(sqlStr, err) := ReplacePlaceholders (Insertion.placeholderFormat b) text in
       (sqlStr, concat (Insertion.values b), err))
    /\ Rewriter.markers text = length (concat (Insertion.values b)).
Proof.
  intros ea ra b Hp Hs Hr Hsel Hv Hb Hinto Hintop Hopts Hcols text. split.
  - rewrite InsertBuilder_ToSql_stages.
    destruct (Insertion.into b) as [|c into] eqn:Ei; [congruence|].
    cbn [String.length Nat.eqb].
    pose proof (values_clause_rendering b) as Hvals.
    destruct (Insertion.values b) as [|row rows] eqn:Ev; [congruence|].
    cbn [length Nat.eqb andb].
    unfold beforeBody, body, returningClause, suffixClause.
    rewrite Hp, Hs, Hr, Hsel, Ei. cbn [length Nat.ltb Nat.leb Insertion.isNil negb].
    rewrite (rowsError_bound _ Hb) in Hvals. rewrite Hvals.
    rewrite (valueArgs_bound _ Hb). cbn [app].
    match goal with
    | |- (let '(_, _) := ReplacePlaceholders _ ?a in _) =
         (let '(_, _) := ReplacePlaceholders _ ?b in _) =>
        replace a with b; [reflexivity|]
    end.
    unfold text, WriteString.
    destruct (Insertion.options b), (Insertion.columns b);
      cbn [length Nat.ltb Nat.leb];
      rewrite ?app_empty_l, ?app_empty_r, ?app_assoc_str; reflexivity.
  - unfold text.
    assert (Ho : countMarkerChars
              (match Insertion.options b with
               | [] => EmptyString
               | opts => String.concat " " opts +:+ " "
               end) = 0%nat).
    { destruct (Insertion.options b) eqn:Eo; [reflexivity|].
      rewrite countMarkerChars_app, (concat_plain " " _ eq_refl Hopts). reflexivity. }
    assert (Hc : countMarkerChars
              (match Insertion.columns b with
               | [] => EmptyString
               | cols => "(" +:+ String.concat "," cols +:+ ") "
               end) = 0%nat).
    { destruct (Insertion.columns b) eqn:Ec; [reflexivity|].
      rewrite !countMarkerChars_app, (concat_plain "," _ eq_refl Hcols). reflexivity. }
    rewrite (markers_plain_prefix "INSERT ") by reflexivity.
    rewrite markers_plain_prefix by exact Ho.
    rewrite (markers_plain_prefix "INTO ") by reflexivity.
    rewrite markers_plain_prefix by exact Hintop.
    rewrite (markers_plain_prefix " ") by reflexivity.
    rewrite markers_plain_prefix by exact Hc.
    rewrite (markers_plain_prefix "VALUES ") by reflexivity.
    now apply markers_rows.
Qed.

Lemma insert_bound_values_markers_match_args_witness :
  let b := Insertion.Values [VString "Bob"; VNil]
             (Insertion.Values [VString "Ann"; VInt 30]
                (Insertion.Columns ["name"%string; "age"%string]
                   (Insertion.Options ["IGNORE"%string]
                      (Insertion.Into "users" (Insertion.NewInsertBuilder Dollar))))) in
  Insertion.InsertBuilder_ToSql Insertion.spec_exprs_AppendToSql
    (fun _ w args => (w, (args, None))) b
  = ("INSERT IGNORE INTO users (name,age) VALUES ($1,$2),($3,$4)"%string,
     [VString "Ann"; VInt 30; VString "Bob"; VNil], None)
  /\ Rewriter.markers "INSERT IGNORE INTO users (name,age) VALUES (?,?),(?,?)" = 4%nat.
Proof.
  intros b.
  destruct (insert_bound_values_markers_match_args Insertion.spec_exprs_AppendToSql
              (fun _ w args => (w, (args, None))) b) as [H1 H2];
    try reflexivity; try discriminate.
  - repeat constructor.
  - repeat constructor.
  - repeat constructor.
  - split; [exact H1|exact H2].
Defined.

(** X12: the source subquery has priority over the rows.  Once a subquery is
    set, adding a row changes nothing of what [ToSql] returns: the rows are
    not rendered and their values are not among the arguments. *)
Theorem insert_select_overrides_values :
  forall exprs_AppendToSql returning_AppendToSql (b : Insertion.InsertBuilder)
         (sb : Sqlizer) (row : list Value),
    let render := Insertion.InsertBuilder_ToSql exprs_AppendToSql returning_AppendToSql in
    render (Insertion.Values row (Insertion.Select (Some sb) b))
      = render (Insertion.Select (Some sb) b)
    /\ render (Insertion.Select (Some sb) (Insertion.Values row b))
      = render (Insertion.Select (Some sb) b).
Proof.
  intros ea ra b sb row render.
  assert (H : forall rows1 rows2 f r p o i c s,
    render {| Insertion.placeholderFormat := f; Insertion.returning := r;
              Insertion.prefixes := p; Insertion.options := o; Insertion.into := i;
              Insertion.columns := c; Insertion.values := rows1;
              Insertion.suffixes := s; Insertion.iselect := Some sb |}
    = render {| Insertion.placeholderFormat := f; Insertion.returning := r;
                Insertion.prefixes := p; Insertion.options := o; Insertion.into := i;
                Insertion.columns := c; Insertion.values := rows2;
                Insertion.suffixes := s; Insertion.iselect := Some sb |}).
  { intros. unfold render. rewrite !InsertBuilder_ToSql_stages.
    cbn [Insertion.into Insertion.values Insertion.iselect Insertion.isNil
      Insertion.placeholderFormat].
    rewrite !andb_false_r. reflexivity. }
  split; apply H.
Qed.

(** X13: [SetMap] with an empty mapping has a single outcome: no column and
    one empty row.  That row passes the check for "at least one set of
    values", so a builder with a table and no prefix, suffix, RETURNING part
    or subquery renders "INSERT [options ]INTO table VALUES ()" with no
    argument instead of failing. *)
Theorem SetMap_empty_mapping_renders_empty_row :
  forall exprs_AppendToSql returning_AppendToSql (b b' : Insertion.InsertBuilder),
    Insertion.SetMap ∅ b b' ->
    Insertion.columns b' = [] /\ Insertion.values b' = [[]]
    /\ (Insertion.into b <> EmptyString ->
        Insertion.prefixes b = [] -> Insertion.suffixes b = [] ->
        Insertion.returning b = [] -> Insertion.iselect b = None ->
        Insertion.InsertBuilder_ToSql exprs_AppendToSql returning_AppendToSql b' =
        (let '(sqlStr, err) :=
           ReplacePlaceholders (Insertion.placeholderFormat b)
             ("INSERT " +:+
              (match Insertion.options b with
               | [] => EmptyString
               | opts => String.concat " " opts +:+ " "
               end) +:+
              "INTO " +:+ Insertion.into b +:+ " VALUES ()") in
         (sqlStr, [], err))).
Proof.
  intros ea ra b b' [visited Hv]. unfold Insertion.rangeOver in Hv.
  rewrite map_to_list_empty in Hv. apply Permutation_nil_r in Hv. subst visited.
  cbn [Insertion.SetMap_visiting fold_left Insertion.columns Insertion.values].
  repeat split.
  intros Hinto Hp Hs Hr Hsel. rewrite InsertBuilder_ToSql_stages.
  unfold beforeBody, body, returningClause, suffixClause,
    Insertion.appendValuesToSQL, WriteString.
  cbn [Insertion.into Insertion.values Insertion.iselect Insertion.prefixes
    Insertion.suffixes Insertion.returning Insertion.columns Insertion.options
    Insertion.placeholderFormat].
  rewrite Hp, Hs, Hr, Hsel.
  destruct (Insertion.into b) as [|c into]; [congruence|].
  cbn [String.length length Nat.eqb Nat.ltb Nat.leb andb Insertion.isNil negb
    Insertion.renderRows Insertion.renderRow fmap list_fmap String.concat].
  match goal with
  | |- (let '(_, _) := ReplacePlaceholders _ ?a in _) =
       (let '(_, _) := ReplacePlaceholders _ ?b in _) =>
      replace a with b; [reflexivity|]
  end.
  destruct (Insertion.options b); cbn [length Nat.ltb Nat.leb];
    rewrite ?app_empty_l, ?app_empty_r, ?app_assoc_str; reflexivity.
Qed.

Lemma SetMap_empty_mapping_renders_empty_row_witness :
  let b := Insertion.Into "audit" (Insertion.NewInsertBuilder Dollar) in
  let b' := Insertion.SetMap_visiting [] b in
  Insertion.SetMap ∅ b b'
  /\ Insertion.InsertBuilder_ToSql Insertion.spec_exprs_AppendToSql
       (fun _ w args => (w, (args, None))) b'
     = ("INSERT INTO audit VALUES ()"%string, [], None).
Proof.
  intros b b'.
  assert (Hs : Insertion.SetMap ∅ b b').
  { constructor. unfold Insertion.rangeOver. now rewrite map_to_list_empty. }
  split; [exact Hs|].
  destruct (SetMap_empty_mapping_renders_empty_row Insertion.spec_exprs_AppendToSql
              (fun _ w args => (w, (args, None))) b b' Hs) as (_ & _ & H).
  rewrite H; [reflexivity|discriminate|reflexivity..].
Defined.

(** ** The database stub *)

Lemma wrap_int_range (x : Z) : - 2 ^ 63 <= Stub.wrap_int x < 2 ^ 63.
Proof.
  unfold Stub.wrap_int. pose proof (Z.mod_pos_bound (x + 2 ^ 63) (2 ^ 64) ltac:(lia)). lia.
Qed.

Lemma wrap_int_id (x : Z) : - 2 ^ 63 <= x < 2 ^ 63 -> Stub.wrap_int x = x.
Proof. intros H. unfold Stub.wrap_int. rewrite Z.mod_small by lia. lia. Qed.

Lemma wrap_int_add (x y : Z) : Stub.wrap_int (Stub.wrap_int x + y) = Stub.wrap_int (x + y).
Proof.
  unfold Stub.wrap_int. f_equal.
  replace ((x + 2 ^ 63) mod 2 ^ 64 - 2 ^ 63 + y + 2 ^ 63)
    with ((x + 2 ^ 63) mod 2 ^ 64 + y) by lia.
  rewrite Zplus_mod_idemp_l. f_equal. lia.
Qed.

Lemma run_cons {Result : Type} (s : Stub.DBStub Result) (c : Stub.call) cs :
  Stub.run s (c :: cs) = Stub.run (Stub.step s c) cs.
Proof. reflexivity. Qed.

Lemma run_PrepareCount {Result : Type} (cs : list Stub.call) :
  forall s : Stub.DBStub Result,
    - 2 ^ 63 <= Stub.PrepareCount s < 2 ^ 63 ->
    Stub.PrepareCount (Stub.run s cs) =
    Stub.wrap_int (Stub.PrepareCount s + Z.of_nat (Stub.prepares cs)).
Proof.
  induction cs as [|c cs IH]; intros s Hs.
  - cbn. now rewrite Z.add_0_r, wrap_int_id.
  - rewrite run_cons.
    destruct c; cbn [Stub.step Stub.prepares];
      try (rewrite IH by exact Hs; reflexivity);
      (rewrite IH by (cbn; apply wrap_int_range);
       cbn [Stub.Prepare Stub.PrepareCount]; rewrite wrap_int_add; f_equal; lia).
Qed.

(** X14: the stub counts the prepared statements.  After any history of
    calls on a stub, [PrepareCount] has grown by the number of [Prepare] and
    [PrepareContext] calls (as a 64-bit [int]: exactly, as long as the sum
    stays below 2^63) and [LastPrepareSql] is the query of the last of them,
    or what it was when there is none; the other calls touch neither. *)
Theorem stub_counts_prepares :
  forall (Result : Type) (s : Stub.DBStub Result) (cs : list Stub.call),
    - 2 ^ 63 <= Stub.PrepareCount s < 2 ^ 63 ->
    Stub.PrepareCount (Stub.run s cs) =
      Stub.wrap_int (Stub.PrepareCount s + Z.of_nat (Stub.prepares cs))
    /\ (Stub.PrepareCount s + Z.of_nat (Stub.prepares cs) < 2 ^ 63 ->
        Stub.PrepareCount (Stub.run s cs) =
        Stub.PrepareCount s + Z.of_nat (Stub.prepares cs))
    /\ Stub.LastPrepareSql (Stub.run s cs) =
       match Stub.lastPrepared cs with
       | Some q => q
       | None => Stub.LastPrepareSql s
       end.
Proof.
  intros Result s cs Hs. split; [now apply run_PrepareCount|]. split.
  - intros Hsum. rewrite run_PrepareCount by exact Hs. apply wrap_int_id. lia.
  - clear Hs. revert s. induction cs as [|c cs IH]; intros s; [reflexivity|].
    rewrite run_cons, IH. cbn [Stub.lastPrepared].
    destruct (Stub.lastPrepared cs); [reflexivity|]. destruct c; reflexivity.
Qed.

Lemma stub_counts_prepares_witness :
  let s : Stub.DBStub unit :=
    {| Stub.res := tt; Stub.err := None; Stub.LastPrepareSql := EmptyString;
       Stub.PrepareCount := 0; Stub.LastExecSql := EmptyString;
       Stub.LastExecArgs := []; Stub.LastQuerySql := EmptyString;
       Stub.LastQueryArgs := []; Stub.LastQueryRowSql := EmptyString;
       Stub.LastQueryRowArgs := [] |} in
  let cs := [Stub.CallPrepare "SELECT 1"; Stub.CallExec "DELETE FROM t" [];
             Stub.CallPrepareContext "SELECT 2"] in
  Stub.PrepareCount (Stub.run s cs) = 2
  /\ Stub.LastPrepareSql (Stub.run s cs) = "SELECT 2"%string.
Proof.
  intros s cs.
  destruct (stub_counts_prepares unit s cs) as (_ & H2 & H3); [cbn; lia|].
  split; [apply H2; cbn; lia|exact H3].
Defined.

(** X15: the stub answers every [Exec] and [ExecContext] with the result
    and the error it was built with, whatever was called before, and
    remembers the query and the arguments of the last call of each kind:
    [LastExecSql]/[LastExecArgs] for the exec calls,
    [LastQuerySql]/[LastQueryArgs] for the query calls.  No call writes
    [LastQueryRowSql] or [LastQueryRowArgs]. *)
Theorem stub_records_last_calls :
  forall (Result : Type) (s : Stub.DBStub Result) (cs : list Stub.call)
         (query : string) (args : list Value),
    let s' := Stub.run s cs in
    snd (Stub.Exec query args s') = (Stub.res s, Stub.err s)
    /\ (Stub.LastExecSql s', Stub.LastExecArgs s') =
       match Stub.lastExec cs with
       | Some qa => qa
       | None => (Stub.LastExecSql s, Stub.LastExecArgs s)
       end
    /\ (Stub.LastQuerySql s', Stub.LastQueryArgs s') =
       match Stub.lastQuery cs with
       | Some qa => qa
       | None => (Stub.LastQuerySql s, Stub.LastQueryArgs s)
       end
    /\ Stub.LastQueryRowSql s' = Stub.LastQueryRowSql s
    /\ Stub.LastQueryRowArgs s' = Stub.LastQueryRowArgs s.
Proof.
  intros Result s cs query args. cbn zeta. revert s.
  induction cs as [|c cs IH]; intros s; [repeat split|].
  rewrite run_cons. destruct (IH (Stub.step s c)) as (H1 & H2 & H3 & H4 & H5).
  rewrite H1, H2, H3, H4, H5. cbn [Stub.lastExec Stub.lastQuery].
  destruct (Stub.lastExec cs), (Stub.lastQuery cs), c; repeat split.
Qed.

(** ** Further properties of the two builders *)

(** X16: a WHERE builder with no where and no having part renders its
    GROUP BY, ORDER BY, LIMIT and OFFSET clauses, in this order, with no
    argument; the names are written verbatim, joined with ", ", and the
    whole text still goes through the placeholder rewriter.  In particular
    a builder with nothing set hands the rewriter the empty text, and
    renders the empty text under a format that runs the rewriter of the
    demo. *)
Theorem where_free_builder_rendering :
  forall b : Filtering.WhereBuilder,
    Filtering.whereParts b = [] -> Filtering.havingParts b = [] ->
    Filtering.WhereBuilder_ToSql b =
      (let '(sqlStr, err) :=
         ReplacePlaceholders (Filtering.placeholderFormat b)
           ((match Filtering.groupBys b with
             | [] => EmptyString
             | names => " GROUP BY " +:+ String.concat ", " names
             end) +:+
            (match Filtering.orderBys b with
             | [] => EmptyString
             | names => " ORDER BY " +:+ String.concat ", " names
             end) +:+
            (if Filtering.limitValid b
             then " LIMIT " +:+ FormatUint (Filtering.limit b) else EmptyString) +:+
            (if Filtering.offsetValid b
             then " OFFSET " +:+ FormatUint (Filtering.offset b) else EmptyString)) in
       (sqlStr, [], err))
    /\ (forall replace : Rewriter.Replacer unit,
          Filtering.WhereBuilder_ToSql (Filtering.empty (rewriterFormat replace))
          = (EmptyString, [], None)).
Proof.
  intros b Hw Hh. split.
  - unfold Filtering.WhereBuilder_ToSql, WriteString. rewrite Hw, Hh.
    cbn [length Nat.ltb Nat.leb]. cbv zeta.
    match goal with
    | |- (let '(_, _) := ReplacePlaceholders _ ?a in _) =
         (let '(_, _) := ReplacePlaceholders _ ?b in _) =>
        replace a with b; [reflexivity|]
    end.
    destruct (Filtering.groupBys b), (Filtering.orderBys b),
      (Filtering.limitValid b), (Filtering.offsetValid b);
      cbn [length Nat.ltb Nat.leb];
      rewrite ?app_empty_l, ?app_empty_r, ?app_assoc_str; reflexivity.
  - intros replace. unfold Filtering.WhereBuilder_ToSql, Filtering.empty.
    cbn [Filtering.whereParts Filtering.havingParts Filtering.groupBys
      Filtering.orderBys Filtering.limitValid Filtering.offsetValid
      Filtering.placeholderFormat length Nat.ltb Nat.leb]. cbv zeta.
    cbn [ReplacePlaceholders rewriterFormat].
    rewrite replacePlaceholders_plain by reflexivity. reflexivity.
Qed.

Lemma where_free_builder_rendering_witness :
  Filtering.WhereBuilder_ToSql
    (Filtering.chain (Filtering.empty Dollar)
       [Filtering.CallOrderBy ["b"%string]; Filtering.CallGroupBy ["a?"%string; "c"%string];
        Filtering.CallOffset 0])
  = (" GROUP BY a$1, c ORDER BY b OFFSET 0"%string, [], None).
Proof.
  rewrite (proj1 (where_free_builder_rendering
    (Filtering.chain (Filtering.empty Dollar)
       [Filtering.CallOrderBy ["b"%string]; Filtering.CallGroupBy ["a?"%string; "c"%string];
        Filtering.CallOffset 0]) eq_refl eq_refl)).
  vm_compute. reflexivity.
Defined.

(** X17: INSERT from a subquery.  For a builder with a table, a source
    subquery that renders, and no prefix, suffix or RETURNING part, [ToSql]
    hands the placeholder rewriter "INSERT [options ]INTO table [(columns) ]"
    followed by the text of the subquery, and returns the arguments of the
    subquery. *)
Theorem insert_from_subquery_rendering :
  forall exprs_AppendToSql returning_AppendToSql (b : Insertion.InsertBuilder)
         (sb : Sqlizer) (selectClause : string) (sArgs : list Value),
    Insertion.iselect b = Some sb ->
    ToSql sb = (selectClause, sArgs, None) ->
    Insertion.prefixes b = [] -> Insertion.suffixes b = [] ->
    Insertion.returning b = [] ->
    Insertion.into b <> EmptyString ->
    Insertion.InsertBuilder_ToSql exprs_AppendToSql returning_AppendToSql b =
    (let '(sqlStr, err) :=
       ReplacePlaceholders (Insertion.placeholderFormat b)
         ("INSERT " +:+
          (match Insertion.options b with
           | [] => EmptyString
           | opts => String.concat " " opts +:+ " "
           end) +:+
          "INTO " +:+ Insertion.into b +:+ " " +:+
          (match Insertion.columns b with
           | [] => EmptyString
           | cols => "(" +:+ String.concat "," cols +:+ ") "
           end) +:+
          selectClause) in
     (sqlStr, sArgs, err)).
Proof.
  intros ea ra b sb selectClause sArgs Hsel Hsb Hp Hs Hr Hinto.
  rewrite InsertBuilder_ToSql_stages.
  unfold beforeBody, body, returningClause, suffixClause,
    Insertion.appendSelectToSQL, WriteString.
  rewrite Hp, Hs, Hr, Hsel, Hsb.
  destruct (Insertion.into b) as [|c into]; [congruence|].
  cbn [String.length length Nat.eqb Nat.ltb Nat.leb Insertion.isNil negb app].
  rewrite andb_false_r.
  match goal with
  | |- (let '(_, _) := ReplacePlaceholders _ ?a in _) =
       (let '(_, _) := ReplacePlaceholders _ ?b in _) =>
      replace a with b; [reflexivity|]
  end.
  destruct (Insertion.options b), (Insertion.columns b);
    cbn [length Nat.ltb Nat.leb];
    rewrite ?app_empty_l, ?app_empty_r, ?app_assoc_str; reflexivity.
Qed.

Lemma insert_from_subquery_rendering_witness :
  let sub := {| ToSql := ("SELECT a, b FROM src WHERE c = ?"%string, [VInt 9], None) |} in
  Insertion.InsertBuilder_ToSql Insertion.spec_exprs_AppendToSql
    (fun _ w args => (w, (args, None)))
    (Insertion.Select (Some sub)
       (Insertion.Columns ["a"%string; "b"%string]
          (Insertion.Into "dst" (Insertion.NewInsertBuilder Dollar))))
  = ("INSERT INTO dst (a,b) SELECT a, b FROM src WHERE c = $1"%string, [VInt 9], None).
Proof.
  intros sub.
  rewrite (insert_from_subquery_rendering Insertion.spec_exprs_AppendToSql
             (fun _ w args => (w, (args, None)))
             (Insertion.Select (Some sub)
                (Insertion.Columns ["a"%string; "b"%string]
                   (Insertion.Into "dst" (Insertion.NewInsertBuilder Dollar))))
             sub "SELECT a, b FROM src WHERE c = ?" [VInt 9]
             eq_refl eq_refl eq_refl eq_refl eq_refl);
    [vm_compute; reflexivity|discriminate].
Defined.

(** X18: what [ToSql] of the INSERT builder returns when its source fails.
    The text is empty and the error is that of the source; the arguments
    are nil when a row value fails, but those gathered from the prefixes
    when the subquery fails. *)
Theorem insert_failing_source_result :
  forall exprs_AppendToSql returning_AppendToSql (b : Insertion.InsertBuilder)
         (err : error),
    Insertion.into b <> EmptyString ->
    (Insertion.values b <> [] \/ Insertion.iselect b <> None) ->
    bodyError b = Some err ->
    Insertion.InsertBuilder_ToSql exprs_AppendToSql returning_AppendToSql b =
    (EmptyString,
     match Insertion.iselect b with
     | Some _ => snd (beforeBody exprs_AppendToSql b)
     | None => []
     end,
     Some err).
Proof.
  intros ea ra b err Hinto Hsrc Hbody. rewrite InsertBuilder_ToSql_stages.
  destruct (Insertion.into b) as [|c into] eqn:Ei; [congruence|].
  cbn [String.length Nat.eqb].
  assert (H2 : ((length (Insertion.values b) =? 0)%nat &&
                Insertion.isNil (Insertion.iselect b)) = false).
  { destruct Hsrc as [H|H].
    - destruct (Insertion.values b); [congruence|reflexivity].
    - destruct (Insertion.iselect b); [apply andb_false_r|congruence]. }
  rewrite H2. destruct (beforeBody ea b) as [sql0 args0]. cbn [snd].
  unfold body, bodyError in *.
  destruct (Insertion.iselect b) as [sb|] eqn:Esel; cbn [Insertion.isNil negb].
  - unfold Insertion.appendSelectToSQL. rewrite Esel. unfold partErr in Hbody.
    destruct (ToSql sb) as [[s a] o]. cbn [snd] in Hbody. subst o. reflexivity.
  - pose proof (values_clause_rendering b sql0 args0) as Hv.
    destruct (Insertion.values b) as [|row rows]; [discriminate|].
    rewrite Hbody in Hv. rewrite Hv. reflexivity.
Qed.

Lemma insert_failing_source_result_witness :
  let bad := VSqlizer EmptyString [] (Some (Errorf "bad value")) in
  Insertion.InsertBuilder_ToSql Insertion.spec_exprs_AppendToSql
    (fun _ w args => (w, (args, None)))
    (Insertion.Values [VInt 1; bad]
       (Insertion.Prefix "WITH x AS (SELECT ?)" [VInt 5]
          (Insertion.Into "t" (Insertion.NewInsertBuilder Dollar))))
  = (EmptyString, [], Some (Errorf "bad value")).
Proof.
  intros bad.
  apply (insert_failing_source_result Insertion.spec_exprs_AppendToSql
           (fun _ w args => (w, (args, None)))
           (Insertion.Values [VInt 1; bad]
              (Insertion.Prefix "WITH x AS (SELECT ?)" [VInt 5]
                 (Insertion.Into "t" (Insertion.NewInsertBuilder Dollar))))
           (Errorf "bad value")); [discriminate|left; discriminate|reflexivity].
Defined.

(** X19: the trailing arguments of a predicate are used only with a raw
    condition.  For any other predicate (nil, a renderable, a mapping, an
    unsupported value) the part renders the same with or without them: they
    are dropped without an error. *)
Theorem where_part_ignores_args_unless_raw :
  forall (pred : Value) (args : list Value),
    (forall s, pred <> VString s) ->
    ToSql (Filtering.newWherePart pred args) = ToSql (Filtering.newWherePart pred [])
    /\ (forall b : Filtering.WhereBuilder,
          Filtering.Where pred args b = Filtering.Where pred [] b).
Proof.
  intros pred args Hp.
  assert (H : ToSql (Filtering.newWherePart pred args) =
              ToSql (Filtering.newWherePart pred [])).
  { destruct pred; try reflexivity. exfalso. now apply (Hp s). }
  split; [exact H|].
  intros b. unfold Filtering.Where. do 2 f_equal.
  unfold Filtering.newWherePart in *. cbn [ToSql] in H. now rewrite H.
Qed.

Lemma where_part_ignores_args_unless_raw_witness :
  ToSql (Filtering.newWherePart (VMap {[ "id"%string := VInt 5 ]}) [VInt 6; VInt 7])
  = ("id = ?"%string, [VInt 5], None).
Proof.
  rewrite (proj1 (where_part_ignores_args_unless_raw
                    (VMap {[ "id"%string := VInt 5 ]}) [VInt 6; VInt 7]
                    ltac:(intros s; discriminate))).
  vm_compute. reflexivity.
Defined.
